(** * ExecLedger desktop companion: configuration store and engine gateway

    A shallow embedding of [desktop-companion/ui/config.py] and
    [desktop-companion/ui/engine_client.py].

    Paths follow the POSIX flavour of Python's [os.path] and [pathlib]
    (separator [/]), the flavour in which the specification writes its
    paths.  Python strings are modelled as sequences of 8-bit characters;
    [str.lower] maps [A]..[Z] to [a]..[z] and leaves every other character
    alone, which is exact for the comparison with the two reserved names.

    The store is described twice.  [ConfigStore] is the store where the
    standard output takes every line, the existence test of the file
    answers and a write that fails does so before the file is touched;
    [ConfigWorld] is the same code where these can fail too.  The two agree
    where none of the three fails (lemmas [quiet_save_config] to
    [quiet_new_Config]). *)

From Stdlib Require Import List Ascii String Bool Arith Lia ZArith QArith.
Import ListNotations.
Close Scope Q_scope.

Set Implicit Arguments.

(** ** Python's [posixpath] and [pathlib.PurePosixPath] on character lists *)

Module PosixPath.

Definition str := list ascii.

Definition sep : ascii := "/"%char.
Definition dot : str := ["."%char].
Definition dotdot : str := ["."%char; "."%char].

Fixpoint streqb (a b : str) : bool :=
  match a, b with
  | [], [] => true
  | x :: a', y :: b' => Ascii.eqb x y && streqb a' b'
  | _, _ => false
  end.

(** [not s], for a string or a list *)
Definition is_empty {A : Type} (s : list A) : bool :=
  match s with [] => true | _ :: _ => false end.

(** [s.startswith(p)] *)
Fixpoint startswith (p s : str) : bool :=
  match p, s with
  | [], _ => true
  | x :: p', y :: s' => Ascii.eqb x y && startswith p' s'
  | _ :: _, [] => false
  end.

(** [s.endswith(p)] *)
Definition endswith (p s : str) : bool := startswith (rev p) (rev s).

(** [s.split('/')]: never empty, [''.split('/') = ['']]. *)
Fixpoint split (s : str) : list str :=
  match s with
  | [] => [[]]
  | c :: s' =>
      if Ascii.eqb c sep then [] :: split s'
      else match split s' with
           | [] => [[c]]
           | w :: ws => (c :: w) :: ws
           end
  end.

(** ['/'.join(comps)] *)
Fixpoint join (comps : list str) : str :=
  match comps with
  | [] => []
  | [w] => w
  | w :: ws => w ++ sep :: join ws
  end.

(** The number [posixpath.normpath] keeps in [initial_slashes]: 0 for a
    relative path, 2 for exactly two leading slashes, 1 otherwise. *)
Definition initial_slashes (path : str) : nat :=
  if startswith [sep] path then
    if startswith [sep; sep] path && negb (startswith [sep; sep; sep] path)
    then 2 else 1
  else 0.

(** One iteration of the loop of [posixpath.normpath]; [new_comps] is the
    Python list, [append] adds at the end and [pop] removes the last. *)
Definition norm_step (slashes : nat) (new_comps : list str) (comp : str)
  : list str :=
  if is_empty comp || streqb comp dot then new_comps
  else if negb (streqb comp dotdot)
          || (Nat.eqb slashes 0 && is_empty new_comps)
          || (negb (is_empty new_comps) && streqb (last new_comps []) dotdot)
       then new_comps ++ [comp]
       else if negb (is_empty new_comps) then removelast new_comps
       else new_comps.

(** [os.path.normpath] *)
Definition normpath (path : str) : str :=
  if is_empty path then dot
  else
    let slashes := initial_slashes path in
    let comps := fold_left (norm_step slashes) (split path) [] in
    let path' := repeat sep slashes ++ join comps in
    if is_empty path' then dot else path'.

(** A parsed [PurePosixPath]: the root ([""], ["/"] or ["//"]) and the
    tail of segments. *)
Record PurePath : Type := mkPath { root : str; tail : list str }.

(** [posixpath.splitroot], without the always-empty drive. *)
Definition splitroot (p : str) : str * str :=
  match p with
  | [] => ([], [])
  | c :: p1 =>
      if negb (Ascii.eqb c sep) then ([], p)
      else match p1 with
           | [] => ([sep], p1)
           | c1 :: p2 =>
               if negb (Ascii.eqb c1 sep) then ([sep], p1)
               else if startswith [sep] p2 then ([sep], p1)
               else ([sep; sep], p2)
           end
  end.

(** [PurePosixPath(path)]: the segments are the non-empty pieces of the
    part after the root, without the ["."] pieces. *)
Definition parse (path : str) : PurePath :=
  let '(r, rel) := splitroot path in
  mkPath r (filter (fun x => negb (is_empty x) && negb (streqb x dot))
                   (split rel)).

(** [str(p)] *)
Definition to_str (p : PurePath) : str :=
  let s := root p ++ join (tail p) in
  if is_empty s then dot else s.

(** [p.name] *)
Definition name (p : PurePath) : str := last (tail p) [].

(** [p.parent] *)
Definition parent (p : PurePath) : PurePath :=
  match tail p with
  | [] => p
  | _ :: _ => mkPath (root p) (removelast (tail p))
  end.

(** [p / key] *)
Definition truediv (p : PurePath) (key : str) : PurePath :=
  let q := parse key in
  if is_empty (root q) then mkPath (root p) (tail p ++ tail q) else q.

Definition lower_char (c : ascii) : ascii :=
  let n := nat_of_ascii c in
  if (65 <=? n) && (n <=? 90) then ascii_of_nat (n + 32) else c.

(** [s.lower()] *)
Definition lower (s : str) : str := map lower_char s.

End PosixPath.

(** ** Exceptions and state

    A method is a function from the state before the call to an outcome:
    it returns a value, or raises, and in both cases leaves a state. *)

Module Py.

Inductive exn : Type :=
| FileNotFoundError (msg : string)
| ValueError (msg : string)
| JSONDecodeError (msg : string)
| TimeoutExpired (msg : string)
| OSError (msg : string)
| RecursionError (msg : string)
| UnicodeEncodeError (msg : string).

(** [str(e)] *)
Definition exn_str (e : exn) : string :=
  match e with
  | FileNotFoundError m | ValueError m | JSONDecodeError m
  | TimeoutExpired m | OSError m | RecursionError m
  | UnicodeEncodeError m => m
  end.

Inductive outcome (S A : Type) : Type :=
| Normal (a : A) (s : S)
| Raised (e : exn) (s : S).
Arguments Normal {S A} a s.
Arguments Raised {S A} e s.

Definition M (S A : Type) : Type := S -> outcome S A.

Definition ret {S A : Type} (a : A) : M S A := fun s => Normal a s.

Definition bind {S A B : Type} (m : M S A) (k : A -> M S B) : M S B :=
  fun s => match m s with
           | Normal a s' => k a s'
           | Raised e s' => Raised e s'
           end.

Definition raise {S A : Type} (e : exn) : M S A := fun s => Raised e s.

Definition get {S : Type} : M S S := fun s => Normal s s.

Definition modify {S : Type} (f : S -> S) : M S unit :=
  fun s => Normal tt (f s).

(** [try: body  except <the exceptions accepted by handler> as e: handler e];
    what the body did to the state before it raised is kept. *)
Definition try_except {S A : Type} (body : M S A)
    (handler : exn -> option (M S A)) : M S A :=
  fun s => match body s with
           | Normal a s' => Normal a s'
           | Raised e s' =>
               match handler e with
               | Some h => h s'
               | None => Raised e s'
               end
           end.

(** [except Exception as e]: every exception of the model is one. *)
Definition except_Exception {S A : Type} (h : exn -> M S A)
  : exn -> option (M S A) := fun e => Some (h e).

Definition returns {S A : Type} (o : outcome S A) : bool :=
  match o with Normal _ _ => true | Raised _ _ => false end.

Definition state_of {S A : Type} (o : outcome S A) : S :=
  match o with Normal _ s => s | Raised _ s => s end.

Definition value_of {S A : Type} (o : outcome S A) : option A :=
  match o with Normal a _ => Some a | Raised _ _ => None end.

End Py.

Declare Scope py_scope.
Delimit Scope py_scope with py.
Notation "x <- m ;; k" := (Py.bind m (fun x => k))
  (at level 61, m at next level, right associativity) : py_scope.
Notation "m ;;; k" := (Py.bind m (fun _ => k))
  (at level 61, right associativity) : py_scope.

(** ** [config.py]: the configuration store

    In this module [print] succeeds, [self.config_file.exists()] answers and
    a write that fails leaves the file as it was. *)

Module ConfigStore.

Import Py.
Local Open Scope string_scope.
Local Open Scope py_scope.

(** The library functions on Python [str] values. *)

Definition os_path_normpath (path : string) : string :=
  string_of_list_ascii (PosixPath.normpath (list_ascii_of_string path)).

Definition Path (s : string) : PosixPath.PurePath :=
  PosixPath.parse (list_ascii_of_string s).

Definition str_of_path (p : PosixPath.PurePath) : string :=
  string_of_list_ascii (PosixPath.to_str p).

Definition path_name (p : PosixPath.PurePath) : string :=
  string_of_list_ascii (PosixPath.name p).

Definition path_div (p : PosixPath.PurePath) (key : string)
  : PosixPath.PurePath :=
  PosixPath.truediv p (list_ascii_of_string key).

Definition str_lower (s : string) : string :=
  string_of_list_ascii (PosixPath.lower (list_ascii_of_string s)).

Definition str_endswith (s suffix : string) : bool :=
  PosixPath.endswith (list_ascii_of_string suffix) (list_ascii_of_string s).

(** A project of the store: a dict with the three keys. *)
Record Project : Type := mkProject {
  name : string;
  project_root : string;
  artifacts_root : string
}.

(** A project entry as read from the file, where each key may be missing. *)
Record Entry : Type := mkEntry {
  entry_name : option string;
  entry_project_root : option string;
  entry_artifacts_root : option string
}.

(** The dict [self._config].  [_load_config] merges what it reads into a
    copy of the defaults, so the five keys are always there, and the calls
    [self._config.get(key, default)] find their key. *)
Record ConfigDict : Type := mkConfigDict {
  cfg_artifacts_root : string;
  cfg_dev_mode : Z;
  cfg_tier : string;
  cfg_projects : list Project;
  cfg_active_project : string
}.

(** The JSON object of the persisted file; keys the store never reads are
    left out. *)
Record Document : Type := mkDocument {
  doc_artifacts_root : option string;
  doc_dev_mode : option Z;
  doc_tier : option string;
  doc_projects : option (list Entry);
  doc_active_project : option string
}.

(** What is at [ui_config.json]: nothing, something the body of the [try]
    in [_load_config] raises on ([open] or [json.load] fail, or the JSON
    value is not an object of the expected shape), or a JSON object. *)
Inductive file_content : Type :=
| NoFile
| Unreadable (why : exn)
| Doc (d : Document).

(** The [Config] object with the part of the world it acts on: the file, the
    error a write to it meets (if any) and the lines printed.  [defaults] is
    read by [_load_config] only: every later read finds its key in
    [_config].  (When [_config] is the copy of the defaults, Python shares
    the project list between the two dicts; the field [defaults] here keeps
    the value [__init__] gave it.) *)
Record Config : Type := mkConfig {
  defaults : ConfigDict;
  _config : ConfigDict;
  config_file : file_content;
  write_error : option exn;
  printed : list string
}.

Definition with_config (c : ConfigDict) (self : Config) : Config :=
  mkConfig (defaults self) c (config_file self) (write_error self)
           (printed self).

Definition with_file (f : file_content) (self : Config) : Config :=
  mkConfig (defaults self) (_config self) f (write_error self)
           (printed self).

(** [print(line)], on a standard output that takes the line. *)
Definition print (line : string) : M Config unit :=
  modify (fun self =>
    mkConfig (defaults self) (_config self) (config_file self)
             (write_error self) (printed self ++ [line])).

(** [normalize_project_root] *)
Definition normalize_project_root (path : string) : string :=
  let normalized_path := os_path_normpath path in
  let path_obj := Path normalized_path in
  let base_name := str_lower (path_name path_obj) in
  if (base_name =? "_artifacts") || (base_name =? "execledger")
  then str_of_path (PosixPath.parent path_obj)
  else normalized_path.

(** [derive_artifacts_root] *)
Definition derive_artifacts_root (project_root : string) : string :=
  let project_root := normalize_project_root project_root in
  str_of_path (path_div (Path project_root) "execledger").

Section WithModuleFile.

(** The value of [__file__] for [config.py]. *)
Variable module_file : string.

Definition repo_root : PosixPath.PurePath :=
  PosixPath.parent (PosixPath.parent (PosixPath.parent (Path module_file))).

Definition entry_get_name (entry : Entry) : string :=
  match entry_name entry with Some n => n | None => "ExecLedger" end.

(** [normalize_project_entry] *)
Definition normalize_project_entry (entry : Entry) : Project :=
  match entry_project_root entry, entry_artifacts_root entry with
  | Some entry_root, Some _ =>
      let project_root := normalize_project_root entry_root in
      let artifacts_root := derive_artifacts_root project_root in
      mkProject (entry_get_name entry) project_root artifacts_root
  | None, Some legacy_path =>
      let project_root :=
        if str_endswith legacy_path "_artifacts"
           || str_endswith legacy_path "execledger"
        then str_of_path (PosixPath.parent (Path legacy_path))
        else legacy_path in
      let project_root := normalize_project_root project_root in
      let artifacts_root := derive_artifacts_root project_root in
      mkProject (entry_get_name entry) project_root artifacts_root
  | _, None =>
      let project_root := normalize_project_root (str_of_path repo_root) in
      let artifacts_root := derive_artifacts_root project_root in
      mkProject (entry_get_name entry) project_root artifacts_root
  end.

(** The dict [self.defaults] built by [__init__]. *)
Definition make_defaults : ConfigDict :=
  let default_project_root := str_of_path repo_root in
  let default_artifacts_root := derive_artifacts_root default_project_root in
  mkConfigDict default_artifacts_root 1 "PREMIUM"
    [mkProject "ExecLedger" default_project_root default_artifacts_root]
    "ExecLedger".

(** [open(self.config_file, 'r')] followed by [json.load]. *)
Definition json_load_file : M Config Document :=
  fun self =>
    match config_file self with
    | Doc d => Normal d self
    | Unreadable e => Raised e self
    | NoFile => Raised (FileNotFoundError "ui_config.json") self
    end.

Definition or_default {A : Type} (o : option A) (d : A) : A :=
  match o with Some a => a | None => d end.

(** [_load_config] *)
Definition _load_config : M Config ConfigDict :=
  self <- get ;;
  match config_file self with
  | NoFile => ret (defaults self)
  | _ =>
      try_except
        (config <- json_load_file ;;
         (* legacy file: no "projects", an "artifacts_root" *)
         let config :=
           match doc_projects config, doc_artifacts_root config with
           | None, Some legacy =>
               mkDocument (doc_artifacts_root config) (doc_dev_mode config)
                 (doc_tier config)
                 (Some [mkEntry (Some "ExecLedger") None (Some legacy)])
                 (Some "ExecLedger")
           | _, _ => config
           end in
         (* every project to the new schema *)
         let normalized_projects :=
           option_map (map normalize_project_entry) (doc_projects config) in
         (* merged = defaults.copy(); merged.update(config) *)
         let d := defaults self in
         ret (mkConfigDict
                (or_default (doc_artifacts_root config) (cfg_artifacts_root d))
                (or_default (doc_dev_mode config) (cfg_dev_mode d))
                (or_default (doc_tier config) (cfg_tier d))
                (or_default normalized_projects (cfg_projects d))
                (or_default (doc_active_project config)
                            (cfg_active_project d))))
        (except_Exception (fun e =>
           print ("Failed to load config: " ++ exn_str e
                  ++ ", using defaults") ;;;
           ret (defaults self)))
  end.

(** [Config.__init__], in a world where the file holds [file] and a write
    meets [werr].  [_config] is assigned from [_load_config]; while
    [_load_config] runs the attribute does not exist yet, and the record
    holds the defaults in its place. *)
Definition new_Config (file : file_content) (werr : option exn)
  : outcome Config unit :=
  let d := make_defaults in
  (c <- _load_config ;; modify (with_config c))
    (mkConfig d d file werr []).

End WithModuleFile.

(** [json.dump(self._config, f)] *)
Definition json_dump (c : ConfigDict) : Document :=
  mkDocument (Some (cfg_artifacts_root c)) (Some (cfg_dev_mode c))
    (Some (cfg_tier c))
    (Some (map (fun p => mkEntry (Some (name p)) (Some (project_root p))
                                 (Some (artifacts_root p)))
               (cfg_projects c)))
    (Some (cfg_active_project c)).

(** [open(self.config_file, 'w')] followed by [json.dump]; the failure, if
    there is one, is the one of [open]. *)
Definition write_file : M Config unit :=
  fun self =>
    match write_error self with
    | Some e => Raised e self
    | None => Normal tt (with_file (Doc (json_dump (_config self))) self)
    end.

(** [save_config] *)
Definition save_config : M Config unit :=
  try_except write_file
    (except_Exception (fun e =>
       print ("Failed to save config: " ++ exn_str e))).

(** [get_projects] *)
Definition get_projects (self : Config) : list Project :=
  cfg_projects (_config self).

(** [set_projects] *)
Definition set_projects (projects : list Project) : M Config unit :=
  modify (fun self =>
    let c := _config self in
    with_config (mkConfigDict (cfg_artifacts_root c) (cfg_dev_mode c)
                   (cfg_tier c) projects (cfg_active_project c)) self) ;;;
  save_config.

(** [get_active_project_name] *)
Definition get_active_project_name (self : Config) : string :=
  cfg_active_project (_config self).

(** [set_active_project_name] *)
Definition set_active_project_name (n : string) : M Config unit :=
  modify (fun self =>
    let c := _config self in
    with_config (mkConfigDict (cfg_artifacts_root c) (cfg_dev_mode c)
                   (cfg_tier c) (cfg_projects c) n) self) ;;;
  save_config.

(** [get_active_project] *)
Definition get_active_project (self : Config) : option Project :=
  let active_name := get_active_project_name self in
  find (fun project => name project =? active_name) (get_projects self).

(** [set_active_project_by_name] *)
Definition set_active_project_by_name (n : string) : M Config bool :=
  self <- get ;;
  if existsb (fun project => name project =? n) (get_projects self)
  then set_active_project_name n ;;; ret true
  else ret false.

(** [get_active_artifacts_root] *)
Definition get_active_artifacts_root (self : Config) : string :=
  match get_active_project self with
  | Some active_project => artifacts_root active_project
  | None => cfg_artifacts_root (_config self)
  end.

(** The loop of the [artifacts_root] setter: the first project named [n]
    gets its two roots assigned, then [break]. *)
Fixpoint assign_first (n project_root' artifacts_root' : string)
    (projects : list Project) : list Project :=
  match projects with
  | [] => []
  | project :: rest =>
      if name project =? n
      then mkProject (name project) project_root' artifacts_root' :: rest
      else project :: assign_first n project_root' artifacts_root' rest
  end.

(** The [artifacts_root] property, written. *)
Definition set_artifacts_root (value : string) : M Config unit :=
  self <- get ;;
  match get_active_project self with
  | Some _ =>
      let projects :=
        assign_first (get_active_project_name self) value
                     (derive_artifacts_root value) (get_projects self) in
      set_projects projects
  | None =>
      modify (fun self =>
        let c := _config self in
        with_config (mkConfigDict value (cfg_dev_mode c) (cfg_tier c)
                       (cfg_projects c) (cfg_active_project c)) self) ;;;
      save_config
  end.

(** The [dev_mode] property, read and written. *)
Definition get_dev_mode (self : Config) : bool :=
  negb (Z.eqb (cfg_dev_mode (_config self)) 0).

Definition set_dev_mode (value : bool) : M Config unit :=
  modify (fun self =>
    let c := _config self in
    with_config (mkConfigDict (cfg_artifacts_root c)
                   (if value then 1%Z else 0%Z) (cfg_tier c)
                   (cfg_projects c) (cfg_active_project c)) self) ;;;
  save_config.

(** The [tier] property, read and written. *)
Definition get_tier (self : Config) : string := cfg_tier (_config self).

Definition set_tier (value : string) : M Config unit :=
  if existsb (String.eqb value) ["FREE"; "PRO"; "PREMIUM"]
  then
    modify (fun self =>
      let c := _config self in
      with_config (mkConfigDict (cfg_artifacts_root c) (cfg_dev_mode c)
                     value (cfg_projects c) (cfg_active_project c)) self) ;;;
    save_config
  else raise (ValueError ("Invalid tier: " ++ value)).

(** The [for ... else] of [upsert_project]: the first project named [n] is
    updated in place; when the loop ends without a [break] the project is
    appended. *)
Fixpoint upsert_list (n project_root' artifacts_root' : string)
    (projects : list Project) : list Project :=
  match projects with
  | [] => [mkProject n project_root' artifacts_root']
  | project :: rest =>
      if name project =? n
      then mkProject (name project) project_root' artifacts_root' :: rest
      else project :: upsert_list n project_root' artifacts_root' rest
  end.

(** [upsert_project] *)
Definition upsert_project (n project_root : string) : M Config unit :=
  let project_root := normalize_project_root project_root in
  self <- get ;;
  let projects := get_projects self in
  let artifacts_root := derive_artifacts_root project_root in
  set_projects (upsert_list n project_root artifacts_root projects).

(** [remove_project] *)
Definition remove_project (n : string) : M Config bool :=
  self <- get ;;
  let projects := get_projects self in
  if (List.length projects <=? 1)%nat then ret false
  else
    let projects := filter (fun p => negb (name p =? n)) projects in
    set_projects projects ;;;
    self <- get ;;
    (if get_active_project_name self =? n
     then match projects with
          | first :: _ => set_active_project_name (name first)
          | [] => ret tt
          end
     else ret tt) ;;;
    ret true.

End ConfigStore.

(** ** [config.py] where the console and the file system fail

    [ConfigStore] describes the store on a console that takes every line,
    with an existence test that answers and a write that fails, if it
    fails, before the file is touched.  Here these three can fail as well.
    The operations are the same text over the larger state; they agree with
    those of [ConfigStore] where none of the three fails. *)

Module ConfigWorld.

Import Py ConfigStore.
Local Open Scope string_scope.
Local Open Scope py_scope.

(** The [Config] object in its world.  [store] is the object with its
    file, the error a write meets and the lines printed.  [exists_error] is
    what [self.config_file.exists()] raises, if it raises (a directory that
    may not be searched, for one).  [console_error] tells what [print]
    raises on a line, if it raises (a character the encoding of the standard
    output does not have, for one).  [dump_leaves] tells where a failing
    write fails: [None] when [open] fails and the file stays as it was,
    [Some rest] when the failure comes after [open] has truncated the file,
    which then holds [rest]. *)
Record World : Type := mkWorld {
  store : Config;
  exists_error : option exn;
  console_error : string -> option exn;
  dump_leaves : option file_content
}.

Definition on_store (f : Config -> Config) (w : World) : World :=
  mkWorld (f (store w)) (exists_error w) (console_error w) (dump_leaves w).

(** [print(line)] *)
Definition print (line : string) : M World unit :=
  fun w =>
    match console_error w line with
    | Some e => Raised e w
    | None =>
        Normal tt
          (on_store (fun self =>
             mkConfig (defaults self) (_config self) (config_file self)
                      (write_error self) (printed self ++ [line])) w)
    end.

(** [self.config_file.exists()] *)
Definition config_file_exists : M World bool :=
  fun w =>
    match exists_error w with
    | Some e => Raised e w
    | None =>
        Normal (match config_file (store w) with
                | NoFile => false
                | _ => true
                end) w
    end.

(** [open(self.config_file, 'r')] followed by [json.load]. *)
Definition json_load_file : M World Document :=
  fun w =>
    match config_file (store w) with
    | Doc d => Normal d w
    | Unreadable e => Raised e w
    | NoFile => Raised (FileNotFoundError "ui_config.json") w
    end.

Section WithModuleFile.

(** The value of [__file__] for [config.py]. *)
Variable module_file : string.

(** [_load_config] *)
Definition _load_config : M World ConfigDict :=
  w <- get ;;
  file_exists <- config_file_exists ;;
  if file_exists : bool
  then
    try_except
      (config <- json_load_file ;;
       (* legacy file: no "projects", an "artifacts_root" *)
       let config :=
         match doc_projects config, doc_artifacts_root config with
         | None, Some legacy =>
             mkDocument (doc_artifacts_root config) (doc_dev_mode config)
               (doc_tier config)
               (Some [mkEntry (Some "ExecLedger") None (Some legacy)])
               (Some "ExecLedger")
         | _, _ => config
         end in
       (* every project to the new schema *)
       let normalized_projects :=
         option_map (map (normalize_project_entry module_file))
                    (doc_projects config) in
       (* merged = defaults.copy(); merged.update(config) *)
       let d := defaults (store w) in
       ret (mkConfigDict
              (or_default (doc_artifacts_root config) (cfg_artifacts_root d))
              (or_default (doc_dev_mode config) (cfg_dev_mode d))
              (or_default (doc_tier config) (cfg_tier d))
              (or_default normalized_projects (cfg_projects d))
              (or_default (doc_active_project config)
                          (cfg_active_project d))))
      (except_Exception (fun e =>
         print ("Failed to load config: " ++ exn_str e
                ++ ", using defaults") ;;;
         ret (defaults (store w))))
  else ret (defaults (store w)).

(** [Config.__init__], in a world where the file holds [file], a write
    meets [werr] and the console and the file system answer as the last
    three arguments tell.  When [_load_config] raises there is no object;
    the outcome then carries the world as the failed call left it. *)
Definition new_Config (file : file_content) (werr : option exn)
    (xerr : option exn) (console : string -> option exn)
    (leaves : option file_content) : outcome World unit :=
  let d := make_defaults module_file in
  (c <- _load_config ;; modify (on_store (with_config c)))
    (mkWorld (mkConfig d d file werr []) xerr console leaves).

End WithModuleFile.

(** [open(self.config_file, 'w')] followed by [json.dump]. *)
Definition write_file : M World unit :=
  fun w =>
    match write_error (store w) with
    | Some e =>
        Raised e match dump_leaves w with
                 | Some rest => on_store (with_file rest) w
                 | None => w
                 end
    | None =>
        Normal tt
          (on_store (fun self =>
             with_file (Doc (json_dump (_config self))) self) w)
    end.

(** [save_config] *)
Definition save_config : M World unit :=
  try_except write_file
    (except_Exception (fun e =>
       print ("Failed to save config: " ++ exn_str e))).

(** [set_projects] *)
Definition set_projects (projects : list Project) : M World unit :=
  modify (on_store (fun self =>
    let c := _config self in
    with_config (mkConfigDict (cfg_artifacts_root c) (cfg_dev_mode c)
                   (cfg_tier c) projects (cfg_active_project c)) self)) ;;;
  save_config.

(** [set_active_project_name] *)
Definition set_active_project_name (n : string) : M World unit :=
  modify (on_store (fun self =>
    let c := _config self in
    with_config (mkConfigDict (cfg_artifacts_root c) (cfg_dev_mode c)
                   (cfg_tier c) (cfg_projects c) n) self)) ;;;
  save_config.

(** [set_active_project_by_name] *)
Definition set_active_project_by_name (n : string) : M World bool :=
  w <- get ;;
  if existsb (fun project => name project =? n) (get_projects (store w))
  then set_active_project_name n ;;; ret true
  else ret false.

(** The [artifacts_root] property, written. *)
Definition set_artifacts_root (value : string) : M World unit :=
  w <- get ;;
  match get_active_project (store w) with
  | Some _ =>
      let projects :=
        assign_first (get_active_project_name (store w)) value
                     (derive_artifacts_root value) (get_projects (store w)) in
      set_projects projects
  | None =>
      modify (on_store (fun self =>
        let c := _config self in
        with_config (mkConfigDict value (cfg_dev_mode c) (cfg_tier c)
                       (cfg_projects c) (cfg_active_project c)) self)) ;;;
      save_config
  end.

(** The [dev_mode] property, written. *)
Definition set_dev_mode (value : bool) : M World unit :=
  modify (on_store (fun self =>
    let c := _config self in
    with_config (mkConfigDict (cfg_artifacts_root c)
                   (if value then 1%Z else 0%Z) (cfg_tier c)
                   (cfg_projects c) (cfg_active_project c)) self)) ;;;
  save_config.

(** The [tier] property, written. *)
Definition set_tier (value : string) : M World unit :=
  if existsb (String.eqb value) ["FREE"; "PRO"; "PREMIUM"]
  then
    modify (on_store (fun self =>
      let c := _config self in
      with_config (mkConfigDict (cfg_artifacts_root c) (cfg_dev_mode c)
                     value (cfg_projects c) (cfg_active_project c)) self)) ;;;
    save_config
  else raise (ValueError ("Invalid tier: " ++ value)).

(** [upsert_project] *)
Definition upsert_project (n project_root : string) : M World unit :=
  let project_root := normalize_project_root project_root in
  w <- get ;;
  let projects := get_projects (store w) in
  let artifacts_root := derive_artifacts_root project_root in
  set_projects (upsert_list n project_root artifacts_root projects).

(** [remove_project] *)
Definition remove_project (n : string) : M World bool :=
  w <- get ;;
  let projects := get_projects (store w) in
  if (List.length projects <=? 1)%nat then ret false
  else
    let projects := filter (fun p => negb (name p =? n)) projects in
    set_projects projects ;;;
    w <- get ;;
    (if get_active_project_name (store w) =? n
     then match projects with
          | first :: _ => set_active_project_name (name first)
          | [] => ret tt
          end
     else ret tt) ;;;
    ret true.

End ConfigWorld.

(** ** [engine_client.py]: the engine gateway *)

Module Gateway.

Import Py.
Local Open Scope string_scope.
Local Open Scope py_scope.

(** What the child process started for a command line does: the launch
    fails with an OS error, or the process runs for some time (in seconds;
    [None] when it never exits by itself) and leaves its two streams, as
    decoded text, and an exit code.  [LaunchFails] also stands for any other
    exception of [subprocess.run] that is not [TimeoutExpired] (output that
    is not UTF-8, for one): the code treats them alike. *)
Inductive child : Type :=
| LaunchFails (msg : string)
| Runs (duration : option Q) (out err : string) (returncode : Z).

Record CompletedProcess : Type := mkCompletedProcess {
  cp_stdout : string;
  cp_stderr : string;
  cp_returncode : Z
}.

(** What [json.loads] raises: [json.JSONDecodeError] on a text that is not
    JSON, and, on a text the decoder gives up on, [RecursionError] (arrays
    or objects nested too deep) or a plain [ValueError] (an integer literal
    with more digits than [int] converts). *)
Inductive loads_error : Type :=
| NotJSON (msg : string)
| TooDeep (msg : string)
| TooLong (msg : string).

Definition loads_exn (e : loads_error) : exn :=
  match e with
  | NotJSON msg => JSONDecodeError msg
  | TooDeep msg => RecursionError msg
  | TooLong msg => ValueError msg
  end.

Section WithWorld.

(** A parsed JSON value other than [null], and [json.loads] on a [str]: the
    value it returns ([None] for the JSON [null], as in Python), or what it
    raises. *)
Variable Contract : Type.
Variable json_loads : string -> option Contract + loads_error.

(** The operating system: the child of a command line, and which paths
    exist. *)
Variable spawn : list string -> child.
Variable path_exists : string -> bool.

(** The value of [__file__] for [engine_client.py]. *)
Variable module_file : string.

(** [contract] is [None] when no contract was parsed, and also when the
    parsed value is the JSON [null]. *)
Record EngineResult : Type := mkEngineResult {
  ok : bool;
  contract : option Contract;
  stdout : string;
  stderr : string;
  code : Z;
  cmd : list string
}.

Record EngineClient : Type := mkEngineClient {
  engine_path : PosixPath.PurePath;
  last_result : option EngineResult
}.

Definition set_last_result (r : EngineResult) : M EngineClient unit :=
  modify (fun self => mkEngineClient (engine_path self) (Some r)).

(** [_get_engine_path] *)
Definition _get_engine_path {S : Type} : M S PosixPath.PurePath :=
  let ui_dir := PosixPath.parent (ConfigStore.Path module_file) in
  let engine_path :=
    ConfigStore.path_div
      (ConfigStore.path_div
         (ConfigStore.path_div (PosixPath.parent ui_dir) "engine") "src")
      "index.js" in
  if negb (path_exists (ConfigStore.str_of_path engine_path))
  then raise (FileNotFoundError
                ("Engine not found at: "
                 ++ ConfigStore.str_of_path engine_path))
  else ret engine_path.

(** [EngineClient.__init__] *)
Definition new_EngineClient : outcome unit EngineClient :=
  (p <- _get_engine_path ;; ret (mkEngineClient p None)) tt.

(** [subprocess.run(cmd, capture_output=True, text=True, timeout=...)] *)
Definition subprocess_run {S : Type} (cmd : list string) (timeout : Q)
  : M S CompletedProcess :=
  match spawn cmd with
  | LaunchFails msg => raise (OSError msg)
  | Runs duration out err returncode =>
      match duration with
      | Some d =>
          if Qle_bool d timeout
          then ret (mkCompletedProcess out err returncode)
          else raise (TimeoutExpired "timed out")
      | None => raise (TimeoutExpired "timed out")
      end
  end.

(** [json.loads(stdout)] as a call that may raise. *)
Definition json_loads_call {S : Type} (s : string) : M S (option Contract) :=
  match json_loads s with
  | inl value => ret value
  | inr e => raise (loads_exn e)
  end.

(** [_execute_engine] *)
Definition _execute_engine (cmd : list string) : M EngineClient EngineResult :=
  try_except
    (result <- subprocess_run cmd (30 # 1) ;;
     let stdout := cp_stdout result in
     let stderr := cp_stderr result in
     let code := cp_returncode result in
     parsed <-
       (if Z.eqb code 0
        then try_except
               (contract <- json_loads_call stdout ;;
                ret (contract, true, stderr))
               (fun e => match e with
                         | JSONDecodeError _ =>
                             Some (ret (None, false,
                                        "JSON parse error: " ++ exn_str e
                                        ++ "\n" ++ stderr))
                         | _ => None
                         end)
        else ret (None, false, stderr)) ;;
     let '(contract, ok, stderr) := parsed in
     let engine_result := mkEngineResult ok contract stdout stderr code cmd in
     set_last_result engine_result ;;;
     ret engine_result)
    (fun e =>
       match e with
       | TimeoutExpired _ =>
           let error_msg := "Engine timeout after 30s" in
           let engine_result :=
             mkEngineResult false None "" error_msg (-1) cmd in
           Some (set_last_result engine_result ;;; ret engine_result)
       | _ =>
           let error_msg := "Engine execution failed: " ++ exn_str e in
           let engine_result :=
             mkEngineResult false None "" error_msg (-1) cmd in
           Some (set_last_result engine_result ;;; ret engine_result)
       end).

(** Truth value of an optional [str] argument ([None] and [''] are false). *)
Definition truthy (o : option string) : bool :=
  match o with
  | Some s => negb (s =? "")
  | None => false
  end.

Definition arg (o : option string) : string :=
  match o with Some s => s | None => "" end.

(** [get_latest_session] *)
Definition get_latest_session (artifacts_root : string)
  : M EngineClient EngineResult :=
  self <- get ;;
  _execute_engine
    ["node"; ConfigStore.str_of_path (engine_path self); "--root";
     artifacts_root; "--latest"].

(** [get_specific_session] *)
Definition get_specific_session (artifacts_root exec_id session_id : string)
  : M EngineClient EngineResult :=
  self <- get ;;
  _execute_engine
    ["node"; ConfigStore.str_of_path (engine_path self); "--root";
     artifacts_root; "--exec"; exec_id; "--session"; session_id].

(** [export_contract_to_file] *)
Definition export_contract_to_file (artifacts_root output_file : string)
    (exec_id session_id : option string) : M EngineClient EngineResult :=
  self <- get ;;
  let cmd := ["node"; ConfigStore.str_of_path (engine_path self); "--root";
              artifacts_root; "--out"; output_file] in
  let cmd := if truthy exec_id && truthy session_id
             then (cmd ++ ["--exec"; arg exec_id;
                           "--session"; arg session_id])%list
             else (cmd ++ ["--latest"])%list in
  _execute_engine cmd.

(** [get_last_diagnostic] *)
Definition get_last_diagnostic (self : EngineClient) : option EngineResult :=
  last_result self.

End WithWorld.

End Gateway.

(** ** Normal forms of paths *)

Module PathForms.

Import PosixPath.

(** A segment of a normalized path: not empty, not ["."], no separator. *)
Definition segment (c : str) : Prop := c <> [] /\ c <> dot /\ ~ In sep c.

(** No segment is [".."]. *)
Definition nodots (l : list str) : bool :=
  forallb (fun x => negb (streqb x dotdot)) l.

(** The [".."] segments all come first. *)
Fixpoint updots (l : list str) : bool :=
  match l with
  | [] => true
  | c :: l' => if streqb c dotdot then updots l' else nodots l'
  end.

(** The segment lists [os.path.normpath] produces behind [i] leading
    slashes: an absolute path has no [".."], a relative one has them all in
    front. *)
Definition canonical (i : nat) (l : list str) : Prop :=
  i <= 2 /\ Forall segment l /\
  (if Nat.eqb i 0 then updots l = true else ~ In dotdot l).

(** The path string of [i] leading slashes and the segments [l]. *)
Definition render (i : nat) (l : list str) : str :=
  let s := repeat sep i ++ join l in
  if is_empty s then dot else s.

End PathForms.

(** ** Vocabulary of the properties *)

Module Props.

Import ConfigStore.
Local Open Scope string_scope.

(** The test [normalize_project_root] applies to the last segment. *)
Definition is_reserved (seg : string) : bool :=
  let base_name := str_lower seg in
  (base_name =? "_artifacts") || (base_name =? "execledger").

(** The last segment of a path, [Path(path).name]. *)
Definition final_segment (path : string) : string := path_name (Path path).

(** The segments of a path, [Path(path).parts] without the root. *)
Definition segments (path : string) : list string :=
  map string_of_list_ascii (PosixPath.tail (Path path)).

(** Two adjacent segments that are both reserved names. *)
Fixpoint doubled (segs : list string) : bool :=
  match segs with
  | [] => false
  | a :: rest =>
      match rest with
      | [] => false
      | b :: _ => (is_reserved a && is_reserved b) || doubled rest
      end
  end.

(** [needle in hay] *)
Fixpoint contains (needle hay : string) : bool :=
  String.prefix needle hay
  || match hay with
     | EmptyString => false
     | String _ hay' => contains needle hay'
     end.

End Props.

(** ** Vocabulary of the store and gateway properties *)

Module StoreProps.

Import Py ConfigStore.
Local Open Scope string_scope.

(** The invariant of a project: its artifacts root is the normalized
    project root joined with ["execledger"]. *)
Definition project_ok (p : Project) : Prop :=
  artifacts_root p =
  str_of_path (path_div (Path (normalize_project_root (project_root p)))
                        "execledger").

Definition store_ok (self : Config) : Prop :=
  Forall project_ok (get_projects self).

(** The states of a store: the one [Config()] builds from whatever the file
    holds, and the states its public mutating operations lead to.
    ([set_projects] is the writer these operations share.) *)
Inductive reachable (module_file : string) : Config -> Prop :=
| reach_load (file : file_content) (werr : option exn) :
    reachable module_file (state_of (new_Config module_file file werr))
| reach_upsert (self : Config) (n project_root : string) :
    reachable module_file self ->
    reachable module_file (state_of (upsert_project n project_root self))
| reach_remove (self : Config) (n : string) :
    reachable module_file self ->
    reachable module_file (state_of (remove_project n self))
| reach_set_artifacts_root (self : Config) (value : string) :
    reachable module_file self ->
    reachable module_file (state_of (set_artifacts_root value self))
| reach_set_active_by_name (self : Config) (n : string) :
    reachable module_file self ->
    reachable module_file (state_of (set_active_project_by_name n self))
| reach_set_active_name (self : Config) (n : string) :
    reachable module_file self ->
    reachable module_file (state_of (set_active_project_name n self))
| reach_set_tier (self : Config) (value : string) :
    reachable module_file self ->
    reachable module_file (state_of (set_tier value self))
| reach_set_dev_mode (self : Config) (value : bool) :
    reachable module_file self ->
    reachable module_file (state_of (set_dev_mode value self)).

(** The project names of a store, in order. *)
Definition project_names (self : Config) : list string :=
  map name (get_projects self).

(** A file in the legacy format: only the key ["artifacts_root"]. *)
Definition legacy_file (artifacts_root : string) : file_content :=
  Doc (mkDocument (Some artifacts_root) None None None None).

(** A store with the two projects [A] and [B] read from a file that names
    no active project, so that the active name is the default one. *)
Definition two_project_file : file_content :=
  Doc (mkDocument None None None
         (Some [mkEntry (Some "A") (Some "/work/a")
                        (Some "/work/a/execledger");
                mkEntry (Some "B") (Some "/work/b")
                        (Some "/work/b/execledger")])
         None).

Definition sample_module_file : string :=
  "/repo/desktop-companion/ui/config.py".

Definition two_project_store : Config :=
  state_of (new_Config sample_module_file two_project_file None).

Definition default_store : Config :=
  state_of (new_Config sample_module_file NoFile None).

End StoreProps.

Module GatewayProps.

Import Py Gateway.
Local Open Scope string_scope.

(** The child is still running when the timeout given to [subprocess.run]
    has passed. *)
Definition exceeds (duration : option Q) (timeout : Q) : Prop :=
  match duration with
  | Some d => Qle_bool d timeout = false
  | None => True
  end.

(** The child of [c] exits with code 0 in time and prints the JSON
    [null]. *)
Definition prints_null {Contract : Type}
    (json_loads : string -> option Contract + loads_error)
    (spawn : list string -> child) (c : list string) : Prop :=
  exists (d : Q) (out err : string),
    spawn c = Runs (Some d) out err 0 /\ Qle_bool d (30 # 1) = true /\
    json_loads out = inl None.

(** Three thousand arrays, one inside the other: more than the decoder
    follows. *)
Definition nested_arrays : string :=
  string_of_list_ascii (repeat "["%char 3000 ++ repeat "]"%char 3000)%list.

(** A small world for examples: [json.loads] knows the document ["{}"] and
    the value ["null"], gives up on [nested_arrays] and takes nothing else
    for JSON; the engine prints something else within a second, and no path
    exists. *)
Definition sample_loads (s : string) : option unit + loads_error :=
  if s =? "{}" then inl (Some tt)
  else if s =? "null" then inl None
  else if s =? nested_arrays
  then inr (TooDeep ("maximum recursion depth exceeded while decoding "
                     ++ "a JSON array from a unicode string"))
  else inr (NotJSON "Expecting value: line 1 column 1 (char 0)").

Definition sample_spawn (cmd : list string) : child :=
  match cmd with
  | [_; _; _; _; "--latest"] => Runs (Some (1 # 1)%Q) "not json" "warning" 0
  | [_; _; _; _; "--exec"; _; "--session"; _] => Runs None "" "" 0
  | _ => LaunchFails "[Errno 2] No such file or directory: 'node'"
  end.

Definition no_path (p : string) : bool := false.

(** An engine that prints [null], and one that prints [nested_arrays]; both
    exit with code 0 within a second. *)
Definition null_spawn (cmd : list string) : child :=
  Runs (Some (1 # 1)%Q) "null" "" 0.

Definition deep_spawn (cmd : list string) : child :=
  Runs (Some (1 # 1)%Q) nested_arrays "deprecation warning" 0.

End GatewayProps.

(** ** Vocabulary of the further properties *)

Module MoreProps.

Import Py ConfigStore StoreProps.
Local Open Scope string_scope.

(** The loop that looks a project up by its name: the first project named
    [n], as in [get_active_project]. *)
Definition find_project (n : string) (self : Config) : option Project :=
  find (fun project => name project =? n) (get_projects self).


(** The file holds what [save_config] writes for the present [_config]. *)
Definition synced (self : Config) : Prop :=
  config_file self = Doc (json_dump (_config self)).

(** What a load makes of a project written by [save_config]. *)
Definition renormalize (p : Project) : Project :=
  let project_root' := normalize_project_root (project_root p) in
  mkProject (name p) project_root' (derive_artifacts_root project_root').

(** A project a load gives back as it is. *)
Definition stable (p : Project) : Prop :=
  normalize_project_root (project_root p) = project_root p /\
  artifacts_root p = derive_artifacts_root (project_root p).

(** [Config()] again, on the file as the store left it. *)
Definition reload (module_file : string) (self : Config)
  : outcome Config unit :=
  new_Config module_file (config_file self) (write_error self).

End MoreProps.

(** ** Vocabulary of the failures of the console and the file system *)

Module WorldProps.

Import Py ConfigStore ConfigWorld StoreProps.
Local Open Scope string_scope.

(** The world where the console takes every line, the existence test
    answers and a failing write leaves the file as it was. *)
Definition quiet (self : Config) : World :=
  mkWorld self None (fun _ => None) None.

Definition lift {A : Type} (o : outcome Config A) : outcome World A :=
  match o with
  | Normal a s => Normal a (quiet s)
  | Raised e s => Raised e (quiet s)
  end.

(** The lines the two handlers print. *)
Definition save_report (e : exn) : string :=
  "Failed to save config: " ++ exn_str e.

Definition load_report (e : exn) : string :=
  "Failed to load config: " ++ exn_str e ++ ", using defaults".

(** The console takes the line that reports the failure of a write. *)
Definition save_reported (w : World) : Prop :=
  forall e, write_error (store w) = Some e ->
            console_error w (save_report e) = None.

(** What the file holds after a write that failed. *)
Definition after_failed_write (w : World) : file_content :=
  match dump_leaves w with
  | Some rest => rest
  | None => config_file (store w)
  end.

Definition tiers : list string := ["FREE"; "PRO"; "PREMIUM"].

(** A standard output with the ASCII encoding: [print] raises on a line
    with a character outside of it. *)
Definition ascii_console (line : string) : option exn :=
  if existsb (fun c => (127 <? nat_of_ascii c)%nat)
             (list_ascii_of_string line)
  then Some (UnicodeEncodeError
               "'ascii' codec can't encode character: ordinal not in range(128)")
  else None.

(** A world for examples: the default store under a home directory whose
    name has a character outside ASCII, where the file may not be opened
    for writing and the standard output is ASCII. *)
Definition denied : exn :=
  OSError ("[Errno 13] Permission denied: '/home/jos"
           ++ String "233"%char "" ++ "/ui/ui_config.json'").

Definition ascii_world : World :=
  mkWorld (state_of (ConfigStore.new_Config sample_module_file NoFile
                       (Some denied)))
          None ascii_console None.

(** A world where the disk is full: the write fails after the file was
    truncated, and leaves a text that is no JSON. *)
Definition disk_full : exn := OSError "[Errno 28] No space left on device".

Definition truncated : file_content :=
  Unreadable (JSONDecodeError "Expecting value: line 1 column 1 (char 0)").

Definition full_disk_world : World :=
  mkWorld (state_of (ConfigStore.new_Config sample_module_file
                       two_project_file (Some disk_full)))
          None (fun _ => None) (Some truncated).

End WorldProps.

(** ** Vocabulary of the last project *)

Module LastProject.

Import Py ConfigStore StoreProps.
Local Open Scope string_scope.

(** The names of the projects are distinct and there is a project. *)
Definition guarded (self : Config) : Prop :=
  NoDup (project_names self) /\ get_projects self <> [].

(** The stores the public mutating operations lead to from a given store.
    ([set_projects] is the writer these operations share; nothing outside
    [config.py] calls it.) *)
Inductive operated (self : Config) : Config -> Prop :=
| op_none : operated self self
| op_upsert (s : Config) (n project_root : string) :
    operated self s ->
    operated self (state_of (upsert_project n project_root s))
| op_remove (s : Config) (n : string) :
    operated self s ->
    operated self (state_of (remove_project n s))
| op_set_artifacts_root (s : Config) (value : string) :
    operated self s ->
    operated self (state_of (set_artifacts_root value s))
| op_set_active_by_name (s : Config) (n : string) :
    operated self s ->
    operated self (state_of (set_active_project_by_name n s))
| op_set_active_name (s : Config) (n : string) :
    operated self s ->
    operated self (state_of (set_active_project_name n s))
| op_set_tier (s : Config) (value : string) :
    operated self s ->
    operated self (state_of (set_tier value s))
| op_set_dev_mode (s : Config) (value : bool) :
    operated self s ->
    operated self (state_of (set_dev_mode value s)).

(** Two projects of one name, and no project at all. *)
Definition same_name_file : file_content :=
  Doc (mkDocument None None None
         (Some [mkEntry (Some "A") (Some "/work/a")
                        (Some "/work/a/execledger");
                mkEntry (Some "A") (Some "/work/b")
                        (Some "/work/b/execledger")])
         None).

Definition same_name_store : Config :=
  state_of (new_Config sample_module_file same_name_file None).

Definition no_project_file : file_content :=
  Doc (mkDocument None None None (Some []) None).

Definition no_project_store : Config :=
  state_of (new_Config sample_module_file no_project_file None).

End LastProject.

(** ** [views_exports.py]: the exec id of the current contract *)

Module ExportsView.

Local Open Scope string_scope.

(** A value of the contract dict: a [str], or any other JSON value. *)
Inductive value : Type :=
| VStr (s : string)
| VOther.

(** The contract is a [dict], as the annotations say; keys are unique. *)
Definition contract_dict : Type := list (string * value).

(** [d.get(key, default)] *)
Fixpoint dict_get (d : contract_dict) (key : string) (default : value)
  : value :=
  match d with
  | [] => default
  | (k, v) :: rest => if k =? key then v else dict_get rest key default
  end.

(** [Path(s).parts]: the root, when there is one, then the segments. *)
Definition parts (p : PosixPath.PurePath) : list string :=
  let tail := map string_of_list_ascii (PosixPath.tail p) in
  if PosixPath.is_empty (PosixPath.root p) then tail
  else string_of_list_ascii (PosixPath.root p) :: tail.

(** The loop of [_extract_exec_id]: the first part that starts with
    ["exec_"], or [""]. *)
Fixpoint first_exec (path_parts : list string) : string :=
  match path_parts with
  | [] => ""
  | part :: rest =>
      if String.prefix "exec_" part then part else first_exec rest
  end.

(** [_extract_exec_id].  [None] inside stands for the exception [Path]
    raises on a value that is not a [str]; the [except] turns it into
    [""]. *)
Definition _extract_exec_id (current_contract : option contract_dict)
  : string :=
  match current_contract with
  | None => ""
  | Some [] => ""
  | Some d =>
      let attempt :=
        match dict_get d "sessionRoot" (VStr "") with
        | VStr session_root =>
            Some (first_exec (parts (ConfigStore.Path session_root)))
        | VOther => None
        end in
      match attempt with
      | Some exec_id => exec_id
      | None => ""
      end
  end.

End ExportsView.

(** * Properties *)

Import PosixPath PathForms ConfigStore Props.

Local Abbreviation chars := list_ascii_of_string.
Local Abbreviation text := string_of_list_ascii.

(** ** The path model on examples

    The values are those of CPython's [posixpath] and [pathlib]. *)

Example normpath_examples :
  map (fun s => text (normpath (chars s)))
      [""; "/"; "//"; "///"; "A//B"; "A/B/"; "A/./B"; "A/foo/../B";
       "../a/../.."; "/.."; "//a//b/."]%string
  = [".";  "/"; "//"; "/"; "A/B"; "A/B"; "A/B"; "A/B";
     "../.."; "/"; "//a/b"]%string.
Proof. reflexivity. Qed.

Example path_examples :
  map (fun s => let p := Path s in
                (str_of_path p, path_name p, str_of_path (parent p),
                 str_of_path (path_div p "execledger")))
      [""; "/"; "a"; "/a/b"; "a/b/.."; "//a//b/."]%string
  = [(".", "", ".", "execledger");
     ("/", "", "/", "/execledger");
     ("a", "a", ".", "a/execledger");
     ("/a/b", "b", "/a", "/a/b/execledger");
     ("a/b/..", "..", "a/b", "a/b/../execledger");
     ("//a/b", "b", "//a", "//a/b/execledger")]%string.
Proof. reflexivity. Qed.

Example normalize_project_root_examples :
  map normalize_project_root
      ["/repo/_artifacts"; "/repo/ExecLedger/"; "/repo/./src/..";
       "execledger"; "/a/myexecledger"]%string
  = ["/repo"; "/repo"; "/repo"; "."; "/a/myexecledger"]%string.
Proof. reflexivity. Qed.

(** ** Strings, [split] and [join] *)

Lemma streqb_eq (a b : str) : streqb a b = true <-> a = b.
Proof.
  revert b; induction a as [|x a IH]; intros [|y b]; simpl;
    try (split; [discriminate | discriminate]); try tauto.
  rewrite andb_true_iff, Ascii.eqb_eq, IH.
  split; [intros [-> ->]; reflexivity | intros H; inversion H; auto].
Qed.

Lemma streqb_refl (a : str) : streqb a a = true.
Proof. apply streqb_eq; reflexivity. Qed.

Lemma streqb_neq (a b : str) : streqb a b = false <-> a <> b.
Proof.
  rewrite <- streqb_eq. destruct (streqb a b); split; congruence.
Qed.

Lemma is_empty_nil {A} (l : list A) : is_empty l = true <-> l = [].
Proof. destruct l; simpl; split; congruence. Qed.

Lemma split_not_nil (s : str) : split s <> [].
Proof.
  induction s as [|c s IH]; simpl; [discriminate|].
  destruct (Ascii.eqb c sep); [discriminate|].
  destruct (split s); discriminate.
Qed.

Lemma split_no_sep (s : str) : Forall (fun w => ~ In sep w) (split s).
Proof.
  induction s as [|c s IH]; simpl.
  - constructor; auto.
  - destruct (Ascii.eqb c sep) eqn:E.
    + constructor; auto.
    + assert (Hc : c <> sep)
        by (intros ->; rewrite Ascii.eqb_refl in E; discriminate).
      destruct (split s) as [|w ws].
      * constructor; auto. intros [H|[]]; congruence.
      * inversion IH; subst. constructor; auto.
        intros [H|H]; auto.
Qed.

Lemma split_segment_sep (w s : str) :
  ~ In sep w -> split (w ++ sep :: s) = w :: split s.
Proof.
  induction w as [|c w IH]; simpl; intros H.
  - reflexivity.
  - destruct (Ascii.eqb c sep) eqn:E.
    + apply Ascii.eqb_eq in E. tauto.
    + rewrite IH by tauto. reflexivity.
Qed.

Lemma split_segment (w : str) : ~ In sep w -> split w = [w].
Proof.
  induction w as [|c w IH]; simpl; intros H.
  - reflexivity.
  - destruct (Ascii.eqb c sep) eqn:E.
    + apply Ascii.eqb_eq in E. tauto.
    + rewrite IH by tauto. reflexivity.
Qed.

Lemma split_join (l : list str) :
  l <> [] -> Forall (fun w => ~ In sep w) l -> split (join l) = l.
Proof.
  induction l as [|w l IH]; intros Hne Hl; [congruence|].
  inversion Hl; subst.
  destruct l as [|w' l].
  - simpl. apply split_segment; auto.
  - change (join (w :: w' :: l)) with (w ++ sep :: join (w' :: l)).
    rewrite split_segment_sep by auto.
    rewrite IH; auto. discriminate.
Qed.

Lemma nodots_In (l : list str) : nodots l = true <-> ~ In dotdot l.
Proof.
  unfold nodots. rewrite forallb_forall. split.
  - intros H Hin. apply H in Hin. rewrite streqb_refl in Hin. discriminate.
  - intros H x Hx. destruct (streqb x dotdot) eqn:E; [|reflexivity].
    apply streqb_eq in E. congruence.
Qed.

Lemma updots_snoc_other (l : list str) (c : str) :
  updots l = true -> c <> dotdot -> updots (l ++ [c]) = true.
Proof.
  intros Hl Hc. apply streqb_neq in Hc.
  induction l as [|a l IH]; simpl in *.
  - rewrite Hc. reflexivity.
  - destruct (streqb a dotdot); auto.
    unfold nodots in *.
    rewrite forallb_app, Hl. simpl. rewrite Hc. reflexivity.
Qed.

Lemma updots_snoc_dotdot (l : list str) :
  updots l = true -> l <> [] -> last l [] = dotdot ->
  updots (l ++ [dotdot]) = true.
Proof.
  induction l as [|a l IH]; intros Hl Hne Hlast; [congruence|].
  simpl in Hl. destruct (streqb a dotdot) eqn:E.
  - simpl. rewrite E. destruct l as [|b l]; [reflexivity|].
    apply IH; auto. discriminate.
  - exfalso. destruct l as [|b l].
    + simpl in Hlast. apply streqb_neq in E. congruence.
    + change (nodots (b :: l) = true) in Hl. rewrite nodots_In in Hl.
      apply Hl. rewrite <- Hlast.
      change (last (a :: b :: l) []) with (last (b :: l) []).
      destruct (exists_last (l := b :: l)) as (l0 & x & Heq);
        [discriminate|].
      rewrite Heq, last_last. apply in_or_app. right. left. reflexivity.
Qed.

Lemma nodots_removelast (l : list str) :
  ~ In dotdot l -> ~ In dotdot (removelast l).
Proof.
  intros H Hin. apply H.
  destruct l as [|a l]; [exact Hin|].
  destruct (exists_last (l := a :: l)) as (l0 & x & Heq); [discriminate|].
  rewrite Heq in *. rewrite removelast_last in Hin.
  apply in_or_app. left. exact Hin.
Qed.

Lemma updots_removelast (l : list str) :
  updots l = true -> updots (removelast l) = true.
Proof.
  induction l as [|a l IH]; intros Hl; [reflexivity|].
  destruct l as [|b l]; [reflexivity|].
  change (removelast (a :: b :: l)) with (a :: removelast (b :: l)).
  simpl in Hl. simpl. destruct (streqb a dotdot).
  - apply IH. exact Hl.
  - change (nodots (b :: l) = true) in Hl.
    change (nodots (removelast (b :: l)) = true).
    rewrite nodots_In in *. apply nodots_removelast. exact Hl.
Qed.

Lemma updots_before_dotdot (acc rest : list str) :
  updots (acc ++ dotdot :: rest) = true ->
  acc = [] \/ (acc <> [] /\ last acc [] = dotdot).
Proof.
  induction acc as [|a acc IH]; intros H; [left; reflexivity|].
  right. split; [discriminate|].
  simpl in H. destruct (streqb a dotdot) eqn:E.
  - apply streqb_eq in E. subst a.
    destruct (IH H) as [-> | [Hne Hl]]; [reflexivity|].
    destruct acc; [congruence|exact Hl].
  - exfalso. change (nodots (acc ++ dotdot :: rest) = true) in H.
    rewrite nodots_In in H. apply H. apply in_or_app. right. left.
    reflexivity.
Qed.

Lemma Forall_removelast {A} (P : A -> Prop) (l : list A) :
  Forall P l -> Forall P (removelast l).
Proof.
  intros H. destruct l as [|a l]; [exact H|].
  destruct (exists_last (l := a :: l)) as (l0 & x & Heq); [discriminate|].
  rewrite Heq in *. rewrite removelast_last.
  apply Forall_app in H. tauto.
Qed.

Lemma canonical_removelast (i : nat) (l : list str) :
  canonical i l -> canonical i (removelast l).
Proof.
  intros (Hi & Hs & Hd). repeat split; auto using Forall_removelast.
  destruct (Nat.eqb i 0); auto using updots_removelast, nodots_removelast.
Qed.

Lemma canonical_nil (i : nat) : (i <= 2)%nat -> canonical i [].
Proof.
  intros Hi. repeat split; auto. destruct (Nat.eqb i 0); simpl; auto.
Qed.

Lemma norm_step_canonical (i : nat) (acc : list str) (c : str) :
  ~ In sep c -> canonical i acc -> canonical i (norm_step i acc c).
Proof.
  intros Hc Hacc. unfold norm_step.
  destruct (is_empty c || streqb c dot) eqn:Eskip; [exact Hacc|].
  apply orb_false_iff in Eskip as [Ee Ed].
  assert (Hseg : segment c).
  { repeat split; auto.
    - intros ->. discriminate.
    - apply streqb_neq. exact Ed. }
  destruct Hacc as (Hi & Hs & Hd).
  match goal with |- canonical _ (if ?b then _ else _) => destruct b eqn:Eb end.
  - repeat split; auto.
    + apply Forall_app. split; auto.
    + apply orb_true_iff in Eb as [Eb|Eb];
        [apply orb_true_iff in Eb as [Eb|Eb]|].
      * apply negb_true_iff, streqb_neq in Eb.
        destruct (Nat.eqb i 0).
        -- apply updots_snoc_other; auto.
        -- intros Hin. apply in_app_or in Hin as [Hin|[Hin|[]]]; auto.
      * apply andb_true_iff in Eb as [Ei Ea].
        rewrite Ei. apply is_empty_nil in Ea. subst acc. simpl.
        destruct (streqb c dotdot); reflexivity.
      * apply andb_true_iff in Eb as [Ea El].
        apply streqb_eq in El.
        assert (Hne : acc <> []) by (intros ->; discriminate).
        destruct (streqb c dotdot) eqn:Ec.
        2:{ apply streqb_neq in Ec. destruct (Nat.eqb i 0).
            - apply updots_snoc_other; auto.
            - intros Hin. apply in_app_or in Hin as [Hin|[Hin|[]]]; auto. }
        apply streqb_eq in Ec. subst c.
        destruct (Nat.eqb i 0).
        -- apply updots_snoc_dotdot; auto.
        -- exfalso. apply Hd. rewrite <- El.
           destruct (exists_last Hne) as (l0 & x & Heq).
           rewrite Heq, last_last. apply in_or_app. right. left. reflexivity.
  - destruct (negb (is_empty acc)).
    + apply canonical_removelast. repeat split; auto.
    + repeat split; auto.
Qed.

Lemma fold_norm_canonical (i : nat) (comps acc : list str) :
  Forall (fun w => ~ In sep w) comps -> canonical i acc ->
  canonical i (fold_left (norm_step i) comps acc).
Proof.
  revert acc. induction comps as [|c comps IH]; intros acc Hc Hacc.
  - exact Hacc.
  - inversion Hc; subst. simpl. apply IH; auto.
    apply norm_step_canonical; auto.
Qed.

Lemma norm_step_keep (i : nat) (acc rest : list str) (c : str) :
  canonical i (acc ++ c :: rest) -> norm_step i acc c = acc ++ [c].
Proof.
  intros (Hi & Hs & Hd).
  apply Forall_app in Hs as [_ Hs]. inversion Hs as [|? ? Hc _]; subst.
  destruct Hc as (Hne & Hnd & _).
  unfold norm_step.
  replace (is_empty c) with false by (destruct c; [congruence|reflexivity]).
  replace (streqb c dot) with false by (symmetry; apply streqb_neq; auto).
  simpl. destruct (streqb c dotdot) eqn:Ec; [|reflexivity].
  apply streqb_eq in Ec. subst c. simpl.
  destruct (Nat.eqb i 0).
  - apply updots_before_dotdot in Hd as [-> | [Ha Hl]]; [reflexivity|].
    rewrite Hl, streqb_refl.
    destruct acc; [congruence|]. reflexivity.
  - exfalso. apply Hd. apply in_or_app. right. left. reflexivity.
Qed.

Lemma fold_norm_keep (i : nat) (l acc : list str) :
  canonical i (acc ++ l) -> fold_left (norm_step i) l acc = acc ++ l.
Proof.
  revert acc. induction l as [|c l IH]; intros acc H.
  - simpl. rewrite app_nil_r. reflexivity.
  - simpl. rewrite (norm_step_keep _ _ _ H).
    rewrite IH; rewrite <- app_assoc; [reflexivity | exact H].
Qed.

Lemma join_cons_cons (c : ascii) (w : str) (l : list str) :
  join ((c :: w) :: l) = c :: join (w :: l).
Proof. destruct l; reflexivity. Qed.

Lemma canonical_no_sep (i : nat) (l : list str) :
  canonical i l -> Forall (fun w => ~ In sep w) l.
Proof.
  intros (_ & Hs & _). eapply Forall_impl; [|exact Hs].
  intros a (_ & _ & H). exact H.
Qed.

Lemma canonical_head (i : nat) (w : str) (l : list str) :
  canonical i (w :: l) ->
  exists c w', w = c :: w' /\ Ascii.eqb c sep = false
                /\ Ascii.eqb sep c = false.
Proof.
  intros (_ & Hs & _). inversion Hs as [|? ? (Hne & _ & Hsep) _]; subst.
  destruct w as [|c w']; [congruence|].
  exists c, w'. split; [reflexivity|].
  split; apply Ascii.eqb_neq; intros E; apply Hsep; left; congruence.
Qed.

Lemma render_cases (i : nat) (w : str) (l : list str) :
  canonical i (w :: l) ->
  exists c rest, (Ascii.eqb c sep = false /\ Ascii.eqb sep c = false) /\
    join (w :: l) = c :: rest /\
    render i (w :: l) = repeat sep i ++ c :: rest.
Proof.
  intros H. destruct (canonical_head H) as (c & w' & -> & Hc & Hc').
  exists c, (join (w' :: l)). rewrite join_cons_cons.
  repeat split; auto.
  unfold render. rewrite join_cons_cons.
  destruct i; reflexivity.
Qed.

Lemma filter_segments (l : list str) :
  Forall segment l ->
  filter (fun x => negb (is_empty x) && negb (streqb x dot)) l = l.
Proof.
  induction 1 as [|w l (Hne & Hd & _) _ IH]; simpl; [reflexivity|].
  replace (is_empty w) with false by (destruct w; [congruence|reflexivity]).
  replace (streqb w dot) with false by (symmetry; apply streqb_neq; auto).
  simpl. rewrite IH. reflexivity.
Qed.

Lemma initial_slashes_0 (c : ascii) (rest : str) :
  Ascii.eqb sep c = false -> initial_slashes (c :: rest) = 0.
Proof.
  intros Hc. unfold initial_slashes. cbn [startswith]. rewrite Hc.
  reflexivity.
Qed.

Lemma initial_slashes_1 (c : ascii) (rest : str) :
  Ascii.eqb sep c = false -> initial_slashes (sep :: c :: rest) = 1.
Proof.
  intros Hc. unfold initial_slashes. cbn [startswith].
  rewrite Ascii.eqb_refl, Hc. reflexivity.
Qed.

Lemma initial_slashes_2 (c : ascii) (rest : str) :
  Ascii.eqb sep c = false -> initial_slashes (sep :: sep :: c :: rest) = 2.
Proof.
  intros Hc. unfold initial_slashes. cbn [startswith].
  rewrite !Ascii.eqb_refl, Hc. reflexivity.
Qed.

Lemma normpath_render (i : nat) (l : list str) :
  canonical i l -> normpath (render i l) = render i l.
Proof.
  intros H. destruct l as [|w l].
  - destruct H as (Hi & _).
    destruct i as [|[|[|i]]]; [reflexivity | reflexivity | reflexivity | lia].
  - destruct (render_cases H) as (c & rest & (Hc & Hc') & Hj & Hr).
    assert (Hsplit : split (join (w :: l)) = w :: l)
      by (apply split_join; [discriminate | eapply canonical_no_sep; eauto]).
    assert (Hfold : fold_left (norm_step i) (w :: l) [] = w :: l)
      by (apply (@fold_norm_keep i (w :: l) []); exact H).
    pose proof H as (Hi & _).
    unfold normpath. rewrite Hr.
    destruct i as [|[|[|i]]]; [| | |lia]; cbn [repeat app is_empty]; cbv zeta.
    + rewrite (@initial_slashes_0 c rest Hc'), <- Hj, Hsplit, Hfold.
      cbn [repeat app]. rewrite Hj. reflexivity.
    + rewrite (@initial_slashes_1 c rest Hc').
      change (split (sep :: c :: rest)) with ([] :: split (c :: rest)).
      rewrite <- Hj, Hsplit.
      change (fold_left (norm_step 1) ([] :: w :: l) [])
        with (fold_left (norm_step 1) (w :: l) []).
      rewrite Hfold. reflexivity.
    + rewrite (@initial_slashes_2 c rest Hc').
      change (split (sep :: sep :: c :: rest))
        with ([] :: [] :: split (c :: rest)).
      rewrite <- Hj, Hsplit.
      change (fold_left (norm_step 2) ([] :: [] :: w :: l) [])
        with (fold_left (norm_step 2) (w :: l) []).
      rewrite Hfold. reflexivity.
Qed.

Lemma parse_render (i : nat) (l : list str) :
  canonical i l -> parse (render i l) = mkPath (repeat sep i) l.
Proof.
  intros H. destruct l as [|w l].
  - destruct H as (Hi & _).
    destruct i as [|[|[|i]]]; [reflexivity | reflexivity | reflexivity | lia].
  - destruct (render_cases H) as (c & rest & (Hc & Hc') & Hj & Hr).
    assert (Hsplit : split (join (w :: l)) = w :: l)
      by (apply split_join; [discriminate | eapply canonical_no_sep; eauto]).
    pose proof H as (Hi & Hs & _).
    rewrite Hr. unfold parse.
    destruct i as [|[|[|i]]]; [| | |lia]; simpl repeat; simpl app;
      unfold splitroot; cbn [startswith];
      rewrite ?Ascii.eqb_refl, ?Hc, ?Hc'; cbn [negb andb];
      rewrite <- Hj, Hsplit, (filter_segments Hs); reflexivity.
Qed.

Lemma normpath_canonical (p : str) :
  exists i l, canonical i l /\ normpath p = render i l.
Proof.
  unfold normpath. destruct (is_empty p) eqn:Ep.
  - exists 0, []. split; [apply canonical_nil; lia | reflexivity].
  - exists (initial_slashes p),
      (fold_left (norm_step (initial_slashes p)) (split p) []).
    split; [|reflexivity].
    assert (Hi : (initial_slashes p <= 2)%nat).
    { unfold initial_slashes.
      destruct (startswith [sep] p); [|lia].
      destruct (startswith [sep; sep] p
                && negb (startswith [sep; sep; sep] p)); lia. }
    apply fold_norm_canonical;
      [apply split_no_sep | apply canonical_nil; exact Hi].
Qed.

Lemma normpath_idempotent (p : str) : normpath (normpath p) = normpath p.
Proof.
  destruct (normpath_canonical p) as (i & l & H & ->).
  apply normpath_render. exact H.
Qed.

(** ** [normalize_project_root] and [derive_artifacts_root] *)

Local Open Scope string_scope.

Lemma text_inj (a b : str) : text a = text b -> a = b.
Proof.
  intros H. apply (f_equal chars) in H.
  rewrite !list_ascii_of_string_of_list_ascii in H. exact H.
Qed.

Lemma text_eqb_literal (a : str) (lit : string) :
  (text a =? lit) = streqb a (chars lit).
Proof.
  destruct (streqb a (chars lit)) eqn:E.
  - apply streqb_eq in E. subst a.
    rewrite string_of_list_ascii_of_string. apply String.eqb_refl.
  - apply String.eqb_neq. intros H. apply streqb_neq in E. apply E.
    rewrite <- H. rewrite list_ascii_of_string_of_list_ascii. reflexivity.
Qed.

Lemma normalize_of_normpath (P : string) (i : nat) (l : list str) :
  canonical i l -> PosixPath.normpath (chars P) = render i l ->
  normalize_project_root P =
  if is_reserved (text (last l []))
  then text (render i (removelast l)) else text (render i l).
Proof.
  intros Hc Hn. unfold normalize_project_root, os_path_normpath, Path,
    path_name, str_of_path.
  rewrite list_ascii_of_string_of_list_ascii, Hn, (parse_render Hc).
  unfold PosixPath.name. cbn [PosixPath.tail].
  fold (is_reserved (text (last l []))).
  destruct (is_reserved (text (last l []))); [|reflexivity].
  unfold parent. cbn [PosixPath.tail PosixPath.root].
  destruct l; reflexivity.
Qed.

Lemma normalize_canonical (P : string) :
  exists i l, canonical i l /\ normalize_project_root P = text (render i l).
Proof.
  destruct (normpath_canonical (chars P)) as (i & l & Hc & Hn).
  rewrite (normalize_of_normpath P Hc Hn).
  destruct (is_reserved (text (last l []))).
  - exists i, (removelast l).
    split; [apply canonical_removelast; auto | reflexivity].
  - exists i, l. auto.
Qed.

Lemma normalize_render (i : nat) (l : list str) :
  canonical i l ->
  normalize_project_root (text (render i l)) =
  if is_reserved (text (last l []))
  then text (render i (removelast l)) else text (render i l).
Proof.
  intros Hc. apply normalize_of_normpath; auto.
  rewrite list_ascii_of_string_of_list_ascii. apply normpath_render; auto.
Qed.

Lemma final_segment_render (i : nat) (l : list str) :
  canonical i l -> final_segment (text (render i l)) = text (last l []).
Proof.
  intros Hc. unfold final_segment, Path, path_name.
  rewrite list_ascii_of_string_of_list_ascii, (parse_render Hc). reflexivity.
Qed.

Lemma removelast_neq {A} (l : list A) : l <> [] -> removelast l <> l.
Proof.
  intros Hne H. destruct (exists_last Hne) as (l0 & x & ->).
  rewrite removelast_last in H. apply (f_equal (@List.length A)) in H.
  rewrite length_app in H. simpl in H. lia.
Qed.

Lemma render_inj (i : nat) (l l' : list str) :
  canonical i l -> canonical i l' -> render i l = render i l' -> l = l'.
Proof.
  intros Hl Hl' H. apply (f_equal parse) in H.
  rewrite (parse_render Hl), (parse_render Hl') in H. congruence.
Qed.

(** Claim C1, as the code has it.  A second call of
    [normalize_project_root] changes nothing exactly when the last segment
    of the first result is not one of the reserved names [_artifacts] and
    [execledger] (compared without case): the function strips one reserved
    last segment, not all of them. *)
Theorem normalize_project_root_twice (P : string) :
  normalize_project_root (normalize_project_root P) = normalize_project_root P
  <-> is_reserved (final_segment (normalize_project_root P)) = false.
Proof.
  destruct (normalize_canonical P) as (i & l & Hc & ->).
  rewrite (final_segment_render Hc), (normalize_render Hc).
  destruct (is_reserved (text (last l []))) eqn:E.
  - split; [|discriminate]. intros H. exfalso.
    apply text_inj, render_inj in H; auto using canonical_removelast.
    destruct l as [|w l]; [discriminate E|].
    revert H. apply removelast_neq. discriminate.
  - split; reflexivity.
Qed.

Lemma normalize_project_root_twice_witness :
  normalize_project_root (normalize_project_root "/a/b/_artifacts")
  = normalize_project_root "/a/b/_artifacts".
Proof.
  apply (proj2 (normalize_project_root_twice "/a/b/_artifacts")).
  vm_compute. reflexivity.
Defined.

(** The doubled path [/a/execledger/execledger]: one call strips one
    segment, a second call strips another. *)
Lemma normalize_project_root_not_idempotent :
  normalize_project_root "/a/execledger/execledger" = "/a/execledger" /\
  normalize_project_root (normalize_project_root "/a/execledger/execledger")
  <> normalize_project_root "/a/execledger/execledger".
Proof. split; [reflexivity | vm_compute; discriminate]. Qed.

Lemma doubled_snoc (l : list string) (x : string) :
  doubled (l ++ [x]) =
  doubled l
  || (negb (is_empty l) && is_reserved (last l "") && is_reserved x).
Proof.
  induction l as [|a l IH]; [reflexivity|].
  destruct l as [|b l].
  - simpl. rewrite orb_false_r. reflexivity.
  - change (doubled ((a :: b :: l) ++ [x]))
      with ((is_reserved a && is_reserved b) || doubled ((b :: l) ++ [x])).
    rewrite IH.
    change (doubled (a :: b :: l))
      with ((is_reserved a && is_reserved b) || doubled (b :: l)).
    change (last (a :: b :: l) "") with (last (b :: l) "").
    rewrite orb_assoc. reflexivity.
Qed.

Lemma last_map_text (l : list str) : last (map text l) "" = text (last l []).
Proof.
  induction l as [|a l IH]; [reflexivity|].
  destruct l; [reflexivity|]. exact IH.
Qed.

Lemma map_text_snoc (l : list str) (x : str) :
  map text (l ++ [x]) = (map text l ++ [text x])%list.
Proof. rewrite map_app. reflexivity. Qed.

Lemma segments_render (i : nat) (l : list str) :
  canonical i l -> segments (text (render i l)) = map text l.
Proof.
  intros Hc. unfold segments, Path.
  rewrite list_ascii_of_string_of_list_ascii, (parse_render Hc). reflexivity.
Qed.

Lemma canonical_snoc (i : nat) (l : list str) (c : str) :
  canonical i l -> segment c -> c <> dotdot -> canonical i (l ++ [c]).
Proof.
  intros (Hi & Hs & Hd) Hc Hn. repeat split; auto.
  - apply Forall_app. auto.
  - destruct (Nat.eqb i 0).
    + apply updots_snoc_other; auto.
    + intros Hin. apply in_app_or in Hin as [Hin|[Hin|[]]]; auto.
Qed.

Lemma derive_render (i : nat) (l : list str) :
  canonical i l ->
  str_of_path (path_div (Path (text (render i l))) "execledger")
  = text (render i (l ++ [chars "execledger"])).
Proof.
  intros Hc. unfold str_of_path, path_div, Path.
  rewrite list_ascii_of_string_of_list_ascii, (parse_render Hc). reflexivity.
Qed.

Lemma segment_execledger :
  segment (chars "execledger") /\ chars "execledger" <> dotdot.
Proof.
  repeat split; try discriminate.
  intros H. cbn in H.
  repeat (destruct H as [H|H]; [discriminate H|]). exact H.
Qed.

(** Claim C2, as the code has it.  When the normalized form of [P] has no
    two adjacent segments that are both reserved names, neither has
    [derive_artifacts_root P]: in particular no segment [execledger] follows
    a segment [execledger], and no [_artifacts] an [_artifacts]. *)
Theorem derive_artifacts_root_no_doubled_segment (P : string) :
  doubled (segments (os_path_normpath P)) = false ->
  doubled (segments (derive_artifacts_root P)) = false.
Proof.
  unfold os_path_normpath.
  destruct (normpath_canonical (chars P)) as (i & l & Hc & Hn).
  assert (Hsnoc : forall l', canonical i l' ->
            canonical i (l' ++ [chars "execledger"]))
    by (intros l' H; apply canonical_snoc; auto; apply segment_execledger).
  unfold derive_artifacts_root.
  rewrite (normalize_of_normpath P Hc Hn), Hn, (segments_render Hc).
  intros Hd.
  destruct (is_reserved (text (last l []))) eqn:E.
  - rewrite (derive_render (canonical_removelast Hc)),
      (segments_render (Hsnoc _ (canonical_removelast Hc))).
    destruct l as [|w l]; [discriminate E|].
    destruct (@exists_last _ (w :: l)) as (l0 & x & Heq); [discriminate|].
    rewrite Heq in *. rewrite removelast_last. rewrite last_last in E.
    rewrite map_text_snoc, doubled_snoc in *.
    apply orb_false_iff in Hd as [Hd1 Hd2]. rewrite Hd1. rewrite E in Hd2.
    rewrite andb_true_r in Hd2. rewrite Hd2. reflexivity.
  - rewrite (derive_render Hc), (segments_render (Hsnoc _ Hc)).
    rewrite map_text_snoc, doubled_snoc, Hd, last_map_text, E.
    rewrite andb_false_r. reflexivity.
Qed.

Lemma derive_artifacts_root_no_doubled_segment_witness :
  doubled (segments (derive_artifacts_root "/a/b/execledger/")) = false.
Proof.
  apply derive_artifacts_root_no_doubled_segment. vm_compute. reflexivity.
Defined.

(** Two results with the substring ["execledger/execledger"]: a project
    root that ends in two reserved segments, and one whose last segment
    merely ends in the reserved word. *)
Lemma derive_artifacts_root_doubled_substring :
  derive_artifacts_root "/a/execledger/execledger"
  = "/a/execledger/execledger" /\
  contains "execledger/execledger"
    (derive_artifacts_root "/a/execledger/execledger") = true /\
  contains "execledger/execledger"
    (derive_artifacts_root "/a/myexecledger") = true.
Proof. repeat split. Qed.

(** ** The configuration store *)

Import Py StoreProps.

Lemma save_config_returns (s : Config) :
  exists s', save_config s = Normal tt s' /\ _config s' = _config s /\
    defaults s' = defaults s /\ write_error s' = write_error s /\
    (write_error s = None ->
     s' = with_file (Doc (json_dump (_config s))) s).
Proof.
  unfold save_config, try_except, write_file.
  destruct (write_error s) as [e|] eqn:E.
  - eexists. split; [reflexivity|]. cbn. repeat split; auto. discriminate.
  - eexists. split; [reflexivity|]. cbn. repeat split; auto.
Qed.

Lemma set_projects_returns (ps : list Project) (s : Config) :
  exists s', set_projects ps s = Normal tt s' /\
    _config s' = mkConfigDict (cfg_artifacts_root (_config s))
                   (cfg_dev_mode (_config s)) (cfg_tier (_config s)) ps
                   (cfg_active_project (_config s)) /\
    write_error s' = write_error s /\
    (write_error s = None -> config_file s' = Doc (json_dump (_config s'))).
Proof.
  unfold set_projects, bind, modify.
  match goal with |- context [save_config ?x] =>
    destruct (save_config_returns x) as (s' & -> & Hc & _ & Hw & Hf) end.
  exists s'. repeat split; auto.
  intros Hnone. rewrite (Hf Hnone). reflexivity.
Qed.

Lemma set_active_project_name_returns (n : string) (s : Config) :
  exists s', set_active_project_name n s = Normal tt s' /\
    _config s' = mkConfigDict (cfg_artifacts_root (_config s))
                   (cfg_dev_mode (_config s)) (cfg_tier (_config s))
                   (cfg_projects (_config s)) n /\
    write_error s' = write_error s /\
    (write_error s = None -> config_file s' = Doc (json_dump (_config s'))).
Proof.
  unfold set_active_project_name, bind, modify.
  match goal with |- context [save_config ?x] =>
    destruct (save_config_returns x) as (s' & -> & Hc & _ & Hw & Hf) end.
  exists s'. repeat split; auto.
  intros Hnone. rewrite (Hf Hnone). reflexivity.
Qed.

(** Running the write that ends an operation: the state it leaves is
    named [s'] and [Hc] says what its [_config] is. *)
Ltac after_save s' Hc :=
  match goal with
  | |- context [save_config ?x] =>
      destruct (save_config_returns x) as (s' & -> & Hc & _)
  end.

Ltac after_set_projects s' Hc :=
  match goal with
  | |- context [set_projects ?ps ?st] =>
      destruct (set_projects_returns ps st) as (s' & -> & Hc & _)
  end.





(** *** The invariant of the projects *)

Section StoreInvariant.

Variable module_file : string.

Lemma normalize_project_entry_ok (entry : Entry) :
  project_ok (normalize_project_entry module_file entry).
Proof.
  unfold normalize_project_entry, project_ok.
  destruct (entry_project_root entry), (entry_artifacts_root entry);
    reflexivity.
Qed.

Lemma make_defaults_ok :
  Forall project_ok (cfg_projects (make_defaults module_file)).
Proof. repeat constructor. Qed.

Lemma load_config_ok (s : Config) :
  Forall project_ok (cfg_projects (defaults s)) ->
  exists c s', _load_config module_file s = Normal c s' /\
    Forall project_ok (cfg_projects c).
Proof.
  intros Hd. unfold _load_config, bind, get.
  destruct (config_file s) as [|e|d] eqn:Ef.
  - eexists _, _. split; [reflexivity|exact Hd].
  - unfold try_except, json_load_file, bind. rewrite Ef.
    eexists _, _. split; [reflexivity|exact Hd].
  - unfold try_except, json_load_file, bind. rewrite Ef. cbn [ret].
    eexists _, _. split; [reflexivity|]. cbn [cfg_projects].
    destruct (doc_projects d) as [es|] eqn:Ep.
    + cbn. rewrite Ep. cbn. rewrite Forall_map. apply Forall_forall.
      intros x _.
      apply normalize_project_entry_ok.
    + destruct (doc_artifacts_root d); cbn.
      * repeat constructor.
      * rewrite Ep. exact Hd.
Qed.

Lemma new_Config_ok (file : file_content) (werr : option exn) :
  exists s, new_Config module_file file werr = Normal tt s /\ store_ok s.
Proof.
  unfold new_Config, bind.
  match goal with |- context [_load_config _ ?s0] =>
    destruct (@load_config_ok s0 make_defaults_ok) as (c & s' & -> & Hc) end.
  eexists. split; [reflexivity|]. exact Hc.
Qed.

Lemma upsert_list_ok (n r a : string) (ps : list Project) :
  project_ok (mkProject n r a) -> Forall project_ok ps ->
  Forall project_ok (upsert_list n r a ps).
Proof.
  intros Hnew. induction 1 as [|p ps Hp Hps IH]; simpl.
  - repeat constructor. exact Hnew.
  - destruct (name p =? n)%string; constructor; auto.
Qed.

Lemma assign_first_ok (n r a : string) (ps : list Project) :
  project_ok (mkProject n r a) -> Forall project_ok ps ->
  Forall project_ok (assign_first n r a ps).
Proof.
  intros Hnew. induction 1 as [|p ps Hp Hps IH]; simpl.
  - constructor.
  - destruct (name p =? n)%string; constructor; auto.
Qed.

Lemma filter_ok (f : Project -> bool) (ps : list Project) :
  Forall project_ok ps -> Forall project_ok (filter f ps).
Proof.
  induction 1 as [|p ps Hp Hps IH]; simpl; [constructor|].
  destruct (f p); auto.
Qed.

Lemma upsert_project_ok (self : Config) (n r : string) :
  store_ok self -> store_ok (state_of (upsert_project n r self)).
Proof.
  intros H. unfold upsert_project, bind, get.
  after_set_projects s' Hc.
  unfold store_ok, get_projects. cbn [state_of]. rewrite Hc. cbn [cfg_projects].
  apply upsert_list_ok; [reflexivity | exact H].
Qed.

Lemma set_artifacts_root_ok (self : Config) (value : string) :
  store_ok self -> store_ok (state_of (set_artifacts_root value self)).
Proof.
  intros H. unfold set_artifacts_root, bind, get.
  destruct (get_active_project self).
  - after_set_projects s' Hc.
    unfold store_ok, get_projects. cbn [state_of]. rewrite Hc.
    cbn [cfg_projects]. apply assign_first_ok; [reflexivity | exact H].
  - unfold modify.
    after_save s' Hc.
    unfold store_ok, get_projects. cbn [state_of]. rewrite Hc. exact H.
Qed.

Lemma remove_project_ok (self : Config) (n : string) :
  store_ok self -> store_ok (state_of (remove_project n self)).
Proof.
  intros H. unfold remove_project, bind, get.
  destruct (List.length (get_projects self) <=? 1)%nat; [exact H|].
  match goal with |- context [set_projects ?ps self] =>
    destruct (set_projects_returns ps self) as (s1 & -> & Hc1 & _) end.
  assert (H1 : store_ok s1).
  { unfold store_ok, get_projects. rewrite Hc1. cbn [cfg_projects].
    apply filter_ok. exact H. }
  destruct (get_active_project_name s1 =? n)%string; [|exact H1].
  destruct (filter _ _) as [|first rest]; [exact H1|].
  destruct (set_active_project_name_returns (name first) s1)
    as (s2 & -> & Hc2 & _).
  unfold store_ok, get_projects. cbn [state_of ret]. rewrite Hc2. exact H1.
Qed.

Lemma set_active_project_name_ok (self : Config) (n : string) :
  store_ok self -> store_ok (state_of (set_active_project_name n self)).
Proof.
  intros H.
  destruct (set_active_project_name_returns n self) as (s2 & -> & Hc2 & _).
  unfold store_ok, get_projects. cbn [state_of]. rewrite Hc2. exact H.
Qed.

Lemma set_active_project_by_name_ok (self : Config) (n : string) :
  store_ok self -> store_ok (state_of (set_active_project_by_name n self)).
Proof.
  intros H. unfold set_active_project_by_name, bind, get.
  destruct (existsb _ _); [|exact H].
  pose proof (set_active_project_name_ok n H) as H2.
  destruct (set_active_project_name n self); exact H2.
Qed.

Lemma set_tier_ok (self : Config) (value : string) :
  store_ok self -> store_ok (state_of (set_tier value self)).
Proof.
  intros H. unfold set_tier.
  destruct (existsb _ _); [|exact H].
  unfold bind, modify.
  after_save s' Hc.
  unfold store_ok, get_projects. cbn [state_of]. rewrite Hc. exact H.
Qed.

Lemma set_dev_mode_ok (self : Config) (value : bool) :
  store_ok self -> store_ok (state_of (set_dev_mode value self)).
Proof.
  intros H. unfold set_dev_mode, bind, modify.
  after_save s' Hc.
  unfold store_ok, get_projects. cbn [state_of]. rewrite Hc. exact H.
Qed.

(** Claim C6.  In every state of the store, from the load on and after
    each mutating operation, every project has
    [artifacts_root = normalize_project_root(project_root) / "execledger"]. *)
Theorem reachable_store_ok (self : Config) :
  reachable module_file self -> store_ok self.
Proof.
  induction 1.
  - destruct (new_Config_ok file werr) as (s & -> & Hs). exact Hs.
  - apply upsert_project_ok; assumption.
  - apply remove_project_ok; assumption.
  - apply set_artifacts_root_ok; assumption.
  - apply set_active_project_by_name_ok; assumption.
  - apply set_active_project_name_ok; assumption.
  - apply set_tier_ok; assumption.
  - apply set_dev_mode_ok; assumption.
Qed.

End StoreInvariant.

Lemma reachable_store_ok_witness :
  store_ok (state_of (upsert_project "X" "/repo/execledger" default_store)).
Proof.
  apply (@reachable_store_ok sample_module_file).
  apply reach_upsert. apply reach_load.
Defined.

Section LegacyLoad.

Variable module_file : string.

(** Claim C9.  Loading a file that holds only
    [{"artifacts_root": "/a/b/_artifacts"}] gives exactly one project, with
    project root ["/a/b"] and artifacts root ["/a/b/execledger"]. *)
Theorem legacy_load_one_project (werr : option exn) :
  exists s,
    new_Config module_file (legacy_file "/a/b/_artifacts") werr = Normal tt s
    /\ get_projects s = [mkProject "ExecLedger" "/a/b" "/a/b/execledger"].
Proof.
  eexists. split; [reflexivity|]. vm_compute. reflexivity.
Qed.

End LegacyLoad.

(** *** Which operations raise *)

Import WorldProps LastProject.

Lemma world_save_returns (w : ConfigWorld.World) :
  save_reported w ->
  exists w',
    ConfigWorld.save_config w = Normal tt w' /\
    _config (ConfigWorld.store w') = _config (ConfigWorld.store w) /\
    defaults (ConfigWorld.store w') = defaults (ConfigWorld.store w) /\
    write_error (ConfigWorld.store w') = write_error (ConfigWorld.store w) /\
    ConfigWorld.console_error w' = ConfigWorld.console_error w /\
    ConfigWorld.dump_leaves w' = ConfigWorld.dump_leaves w /\
    (write_error (ConfigWorld.store w) = None ->
     config_file (ConfigWorld.store w')
     = Doc (json_dump (_config (ConfigWorld.store w))) /\
     printed (ConfigWorld.store w') = printed (ConfigWorld.store w)) /\
    (forall e, write_error (ConfigWorld.store w) = Some e ->
     config_file (ConfigWorld.store w') = after_failed_write w /\
     printed (ConfigWorld.store w')
     = (printed (ConfigWorld.store w) ++ [save_report e])%list).
Proof.
  intros Hrep.
  unfold ConfigWorld.save_config, try_except, except_Exception,
    ConfigWorld.write_file, ConfigWorld.print.
  destruct (write_error (ConfigWorld.store w)) as [e|] eqn:E.
  - assert (Hc : ConfigWorld.console_error w (save_report e) = None)
      by (apply Hrep; exact E).
    unfold after_failed_write.
    destruct (ConfigWorld.dump_leaves w) as [rest|] eqn:El;
      cbn [ConfigWorld.console_error ConfigWorld.on_store];
      change ("Failed to save config: " ++ exn_str e) with (save_report e);
      rewrite Hc; eexists; (split; [reflexivity|]); cbn;
      (split; [reflexivity|]); (split; [reflexivity|]);
      (split; [exact E|]); (split; [reflexivity|]);
      (split; [first [exact El | reflexivity]|]);
      (split; [intros H0; congruence|]);
      intros e0 H0; assert (e0 = e) by congruence; subst e0;
      split; reflexivity.
  - eexists. split; [reflexivity|]. cbn.
    split; [reflexivity|]. split; [reflexivity|]. split; [exact E|].
    split; [reflexivity|]. split; [reflexivity|].
    split; [intros _; split; reflexivity|].
    intros e0 H0. congruence.
Qed.

Lemma world_save_raises (w : ConfigWorld.World) (e e' : exn) :
  write_error (ConfigWorld.store w) = Some e ->
  ConfigWorld.console_error w (save_report e) = Some e' ->
  exists w',
    ConfigWorld.save_config w = Raised e' w' /\
    _config (ConfigWorld.store w') = _config (ConfigWorld.store w) /\
    config_file (ConfigWorld.store w') = after_failed_write w /\
    printed (ConfigWorld.store w') = printed (ConfigWorld.store w).
Proof.
  intros E Hc.
  unfold ConfigWorld.save_config, try_except, except_Exception,
    ConfigWorld.write_file, ConfigWorld.print.
  rewrite E. unfold after_failed_write.
  destruct (ConfigWorld.dump_leaves w) as [rest|] eqn:El;
    cbn [ConfigWorld.console_error ConfigWorld.on_store];
    change ("Failed to save config: " ++ exn_str e) with (save_report e);
    rewrite Hc; eexists; (split; [reflexivity|]); cbn; auto.
Qed.

(** A change of [_config] does not change what a write meets. *)
Lemma save_reported_on_config (w : ConfigWorld.World) (c : ConfigDict) :
  save_reported w -> save_reported (ConfigWorld.on_store (with_config c) w).
Proof. intros H e He. exact (H e He). Qed.

Lemma save_reported_after (w w' : ConfigWorld.World) :
  save_reported w ->
  write_error (ConfigWorld.store w') = write_error (ConfigWorld.store w) ->
  ConfigWorld.console_error w' = ConfigWorld.console_error w ->
  save_reported w'.
Proof.
  intros H Hw Hc e He. rewrite Hc. apply H. rewrite <- Hw. exact He.
Qed.

Lemma world_set_projects_returns (ps : list Project) (w : ConfigWorld.World) :
  save_reported w ->
  exists w',
    ConfigWorld.set_projects ps w = Normal tt w' /\
    _config (ConfigWorld.store w')
    = mkConfigDict (cfg_artifacts_root (_config (ConfigWorld.store w)))
        (cfg_dev_mode (_config (ConfigWorld.store w)))
        (cfg_tier (_config (ConfigWorld.store w))) ps
        (cfg_active_project (_config (ConfigWorld.store w))) /\
    save_reported w' /\
    (forall e, write_error (ConfigWorld.store w) = Some e ->
     config_file (ConfigWorld.store w') = after_failed_write w /\
     printed (ConfigWorld.store w')
     = (printed (ConfigWorld.store w) ++ [save_report e])%list).
Proof.
  intros Hrep. unfold ConfigWorld.set_projects, bind, modify.
  match goal with |- context [ConfigWorld.save_config ?x] =>
    destruct (@world_save_returns x) as (w' & -> & Hc & _ & Hw & Hk & _ & _ & Hf);
      [apply save_reported_on_config; exact Hrep|] end.
  exists w'. split; [reflexivity|]. split; [exact Hc|].
  split; [apply (@save_reported_after w w' Hrep Hw Hk)|].
  intros e He. exact (Hf e He).
Qed.

Lemma world_set_active_name_returns (n : string) (w : ConfigWorld.World) :
  save_reported w ->
  exists w', ConfigWorld.set_active_project_name n w = Normal tt w'.
Proof.
  intros Hrep. unfold ConfigWorld.set_active_project_name, bind, modify.
  match goal with |- context [ConfigWorld.save_config ?x] =>
    destruct (@world_save_returns x) as (w' & -> & _);
      [apply save_reported_on_config; exact Hrep|] end.
  exists w'. reflexivity.
Qed.

(** An operation that changes [_config] and saves, where the report of the
    failed write fails too. *)
Ltac save_raises E Hc :=
  unfold bind, modify;
  match goal with
  | |- context [ConfigWorld.save_config ?x] =>
      let w' := fresh "w'" in
      let H := fresh in
      destruct (@world_save_raises x _ _ E Hc) as (w' & H & _);
      rewrite H; exists w'; reflexivity
  end.

Ltac save_returns Hrep :=
  unfold bind, modify;
  match goal with
  | |- context [ConfigWorld.save_config ?x] =>
      let w' := fresh "w'" in
      let H := fresh in
      destruct (@world_save_returns x) as (w' & H & _);
      [apply save_reported_on_config; exact Hrep|];
      rewrite H
  end.

Lemma tier_known (value : string) :
  existsb (String.eqb value) ["FREE"; "PRO"; "PREMIUM"] = true
  <-> In value tiers.
Proof.
  rewrite existsb_exists. split.
  - intros (x & Hx & E). apply String.eqb_eq in E. subst x. exact Hx.
  - intros H. exists value. split; [exact H | apply String.eqb_refl].
Qed.

(** Claim C5, as the code has it.  The tier write accepts [FREE], [PRO] and
    [PREMIUM]; on any other value it raises [ValueError] to its caller and
    leaves the state as it was.  The failures of reading and writing the
    file are caught inside and reported with [print]: where [print] takes
    the report, every operation returns.  Where [print] raises on the
    report, its exception reaches the caller of every operation that got as
    far as its save, and of [Config()] when the file cannot be read; and
    [Config()] lets through what the existence test of the file raises. *)
Theorem store_failures_reach_caller (w : ConfigWorld.World)
    (value n r : string) (b : bool)
    (module_file : string) (file : file_content) (werr xerr : option exn)
    (console : string -> option exn) (leaves : option file_content) :
  (~ In value tiers ->
   ConfigWorld.set_tier value w
   = Raised (ValueError ("Invalid tier: " ++ value)) w) /\
  (In value tiers -> save_reported w ->
   exists w', ConfigWorld.set_tier value w = Normal tt w' /\
              get_tier (ConfigWorld.store w') = value) /\
  (save_reported w ->
   returns (ConfigWorld.save_config w) = true /\
   returns (ConfigWorld.upsert_project n r w) = true /\
   returns (ConfigWorld.remove_project n w) = true /\
   returns (ConfigWorld.set_artifacts_root value w) = true /\
   returns (ConfigWorld.set_active_project_by_name n w) = true /\
   returns (ConfigWorld.set_active_project_name n w) = true /\
   returns (ConfigWorld.set_dev_mode b w) = true) /\
  (forall e e',
     write_error (ConfigWorld.store w) = Some e ->
     ConfigWorld.console_error w (save_report e) = Some e' ->
     (exists w', ConfigWorld.save_config w = Raised e' w') /\
     (exists w', ConfigWorld.upsert_project n r w = Raised e' w') /\
     (2 <= List.length (get_projects (ConfigWorld.store w)) ->
      exists w', ConfigWorld.remove_project n w = Raised e' w') /\
     (exists w', ConfigWorld.set_artifacts_root value w = Raised e' w') /\
     (In n (project_names (ConfigWorld.store w)) ->
      exists w', ConfigWorld.set_active_project_by_name n w = Raised e' w') /\
     (exists w', ConfigWorld.set_active_project_name n w = Raised e' w') /\
     (exists w', ConfigWorld.set_dev_mode b w = Raised e' w') /\
     (In value tiers ->
      exists w', ConfigWorld.set_tier value w = Raised e' w')) /\
  (forall e, xerr = Some e ->
     exists w',
       ConfigWorld.new_Config module_file file werr xerr console leaves
       = Raised e w') /\
  (xerr = None ->
   (forall e, file = Unreadable e -> console (load_report e) = None) ->
   returns (ConfigWorld.new_Config module_file file werr xerr console leaves)
   = true) /\
  (forall e e', xerr = None -> file = Unreadable e ->
     console (load_report e) = Some e' ->
     exists w',
       ConfigWorld.new_Config module_file file werr xerr console leaves
       = Raised e' w').
Proof.
  split; [|split; [|split; [|split; [|split; [|split]]]]].
  - intros H. unfold ConfigWorld.set_tier.
    destruct (existsb _ _) eqn:E; [|reflexivity].
    exfalso. apply H, tier_known. exact E.
  - intros H Hrep. apply tier_known in H. unfold ConfigWorld.set_tier.
    rewrite H. unfold bind, modify.
    match goal with |- context [ConfigWorld.save_config ?x] =>
      destruct (@world_save_returns x) as (w' & -> & Hc & _);
        [apply save_reported_on_config; exact Hrep|] end.
    exists w'. split; [reflexivity|]. unfold get_tier. rewrite Hc.
    reflexivity.
  - intros Hrep.
    split; [|split; [|split; [|split; [|split; [|split]]]]].
    + destruct (world_save_returns Hrep) as (w' & -> & _). reflexivity.
    + unfold ConfigWorld.upsert_project, bind, get.
      match goal with |- context [ConfigWorld.set_projects ?ps w] =>
        destruct (@world_set_projects_returns ps w Hrep) as (w' & -> & _) end.
      reflexivity.
    + unfold ConfigWorld.remove_project, bind, get.
      destruct (_ <=? 1)%nat; [reflexivity|].
      match goal with |- context [ConfigWorld.set_projects ?ps w] =>
        destruct (@world_set_projects_returns ps w Hrep)
          as (w1 & -> & _ & Hrep1 & _) end.
      destruct (get_active_project_name (ConfigWorld.store w1) =? n)%string;
        [|reflexivity].
      destruct (filter _ _) as [|first rest]; [reflexivity|].
      destruct (@world_set_active_name_returns (name first) w1 Hrep1)
        as (w2 & ->).
      reflexivity.
    + unfold ConfigWorld.set_artifacts_root, bind, get.
      destruct (get_active_project (ConfigWorld.store w)).
      * match goal with |- context [ConfigWorld.set_projects ?ps w] =>
          destruct (@world_set_projects_returns ps w Hrep) as (w' & -> & _)
        end.
        reflexivity.
      * save_returns Hrep. reflexivity.
    + unfold ConfigWorld.set_active_project_by_name, bind, get.
      destruct (existsb _ _); [|reflexivity].
      destruct (@world_set_active_name_returns n w Hrep) as (w' & ->).
      reflexivity.
    + destruct (@world_set_active_name_returns n w Hrep) as (w' & ->).
      reflexivity.
    + unfold ConfigWorld.set_dev_mode. save_returns Hrep. reflexivity.
  - intros e e' E Hc.
    split; [|split; [|split; [|split; [|split; [|split; [|split]]]]]].
    + destruct (world_save_raises w E Hc) as (w' & H & _).
      exists w'. exact H.
    + unfold ConfigWorld.upsert_project, ConfigWorld.set_projects, get.
      unfold bind at 1. save_raises E Hc.
    + intros Hlen. unfold ConfigWorld.remove_project, get.
      unfold bind at 1.
      destruct (_ <=? 1)%nat eqn:El;
        [apply Nat.leb_le in El; lia|].
      unfold ConfigWorld.set_projects. unfold bind at 1.
      unfold bind, modify.
      match goal with |- context [ConfigWorld.save_config ?x] =>
        destruct (@world_save_raises x _ _ E Hc) as (w' & H & _);
          rewrite H; exists w'; reflexivity end.
    + unfold ConfigWorld.set_artifacts_root, get. unfold bind at 1.
      destruct (get_active_project (ConfigWorld.store w)).
      * unfold ConfigWorld.set_projects. save_raises E Hc.
      * save_raises E Hc.
    + intros Hin. unfold ConfigWorld.set_active_project_by_name, get.
      unfold bind at 1.
      assert (Hex : existsb (fun project => (name project =? n)%string)
                      (get_projects (ConfigWorld.store w)) = true).
      { apply existsb_exists. unfold project_names in Hin.
        apply in_map_iff in Hin. destruct Hin as (p & Hp & Hin).
        exists p. split; [exact Hin|]. rewrite Hp. apply String.eqb_refl. }
      rewrite Hex. unfold ConfigWorld.set_active_project_name.
      unfold bind, modify.
      match goal with |- context [ConfigWorld.save_config ?x] =>
        destruct (@world_save_raises x _ _ E Hc) as (w' & H & _);
          rewrite H; exists w'; reflexivity end.
    + unfold ConfigWorld.set_active_project_name. save_raises E Hc.
    + unfold ConfigWorld.set_dev_mode. save_raises E Hc.
    + intros H. apply tier_known in H. unfold ConfigWorld.set_tier.
      rewrite H. save_raises E Hc.
  - intros e ->. eexists.
    unfold ConfigWorld.new_Config, ConfigWorld._load_config, bind, get,
      ConfigWorld.config_file_exists.
    cbn [ConfigWorld.exists_error]. reflexivity.
  - intros -> Hc.
    unfold ConfigWorld.new_Config, ConfigWorld._load_config, bind, get,
      ConfigWorld.config_file_exists, ConfigWorld.json_load_file,
      try_except, except_Exception, ConfigWorld.print, modify, ret.
    cbn [ConfigWorld.exists_error ConfigWorld.store config_file
         ConfigWorld.console_error].
    destruct file as [|e|d]; [reflexivity| |reflexivity].
    cbn [ConfigWorld.exists_error ConfigWorld.store config_file
         ConfigWorld.console_error].
    change ("Failed to load config: " ++ exn_str e ++ ", using defaults")
      with (load_report e).
    rewrite (Hc e eq_refl). reflexivity.
  - intros e e' -> -> Hc. eexists.
    unfold ConfigWorld.new_Config, ConfigWorld._load_config, bind, get,
      ConfigWorld.config_file_exists, ConfigWorld.json_load_file,
      try_except, except_Exception, ConfigWorld.print, modify, ret.
    cbn [ConfigWorld.exists_error ConfigWorld.store config_file
         ConfigWorld.console_error].
    change ("Failed to load config: " ++ exn_str e ++ ", using defaults")
      with (load_report e).
    rewrite Hc. reflexivity.
Qed.

Lemma store_failures_reach_caller_witness :
  ConfigWorld.set_tier "GOLD" ascii_world
  = Raised (ValueError "Invalid tier: GOLD") ascii_world /\
  (exists w',
     ConfigWorld.upsert_project "Docs" "/srv/docs" ascii_world
     = Raised (UnicodeEncodeError
         "'ascii' codec can't encode character: ordinal not in range(128)")
         w') /\
  returns (ConfigWorld.upsert_project "Docs" "/srv/docs" full_disk_world)
  = true.
Proof.
  pose proof (@store_failures_reach_caller ascii_world "GOLD" "Docs"
                "/srv/docs" true "" NoFile None None (fun _ => None) None)
    as (H1 & _ & _ & H4 & _).
  pose proof (@store_failures_reach_caller full_disk_world "GOLD" "Docs"
                "/srv/docs" true "" NoFile None None (fun _ => None) None)
    as (_ & _ & H3 & _).
  split; [|split].
  - apply H1. unfold tiers. simpl. intuition discriminate.
  - destruct (H4 denied
                (UnicodeEncodeError
                   "'ascii' codec can't encode character: ordinal not in range(128)"))
      as (_ & H & _); [reflexivity | vm_compute; reflexivity | exact H].
  - apply H3. intros e He. reflexivity.
Defined.

(** Where the report of a failed write cannot be printed, the exception of
    [print] leaves [upsert_project]; the project is in memory all the
    same. *)
Lemma unreported_failure_raises :
  exists w',
    ConfigWorld.upsert_project "Docs" "/srv/docs" ascii_world
    = Raised (UnicodeEncodeError
        "'ascii' codec can't encode character: ordinal not in range(128)")
        w' /\
    MoreProps.find_project "Docs" (ConfigWorld.store w')
    = Some (mkProject "Docs" "/srv/docs" "/srv/docs/execledger").
Proof. eexists. split; vm_compute; reflexivity. Qed.

(** The tier write raises on a value that is not a tier. *)
Lemma set_tier_raises :
  set_tier "GOLD" default_store
  = Raised (ValueError "Invalid tier: GOLD") default_store /\
  returns (set_tier "GOLD" default_store) = false.
Proof. split; reflexivity. Qed.

(** ** The two descriptions of the store agree

    Where the console takes every line, the existence test answers and a
    failing write fails at [open], the operations of [ConfigWorld] do what
    those of [ConfigStore] do. *)

Lemma quiet_save_config (s : Config) :
  ConfigWorld.save_config (quiet s) = lift (save_config s).
Proof.
  unfold ConfigWorld.save_config, save_config, try_except, except_Exception,
    ConfigWorld.write_file, write_file, ConfigWorld.print, print, modify.
  cbn [quiet ConfigWorld.store ConfigWorld.dump_leaves
       ConfigWorld.console_error].
  destruct (write_error s); reflexivity.
Qed.

Lemma quiet_set_projects (ps : list Project) (s : Config) :
  ConfigWorld.set_projects ps (quiet s) = lift (set_projects ps s).
Proof.
  unfold ConfigWorld.set_projects, set_projects, bind, modify.
  match goal with |- _ = lift (save_config ?x) =>
    exact (quiet_save_config x) end.
Qed.

Lemma quiet_set_active_project_name (n : string) (s : Config) :
  ConfigWorld.set_active_project_name n (quiet s)
  = lift (set_active_project_name n s).
Proof.
  unfold ConfigWorld.set_active_project_name, set_active_project_name,
    bind, modify.
  match goal with |- _ = lift (save_config ?x) =>
    exact (quiet_save_config x) end.
Qed.

Lemma quiet_set_dev_mode (b : bool) (s : Config) :
  ConfigWorld.set_dev_mode b (quiet s) = lift (set_dev_mode b s).
Proof.
  unfold ConfigWorld.set_dev_mode, set_dev_mode, bind, modify.
  match goal with |- _ = lift (save_config ?x) =>
    exact (quiet_save_config x) end.
Qed.

Lemma quiet_set_tier (value : string) (s : Config) :
  ConfigWorld.set_tier value (quiet s) = lift (set_tier value s).
Proof.
  unfold ConfigWorld.set_tier, set_tier.
  destruct (existsb _ _); [|reflexivity].
  unfold bind, modify.
  match goal with |- _ = lift (save_config ?x) =>
    exact (quiet_save_config x) end.
Qed.

Lemma quiet_upsert_project (n r : string) (s : Config) :
  ConfigWorld.upsert_project n r (quiet s) = lift (upsert_project n r s).
Proof.
  unfold ConfigWorld.upsert_project, upsert_project, bind, get.
  cbn [quiet ConfigWorld.store]. apply quiet_set_projects.
Qed.

Lemma quiet_set_artifacts_root (value : string) (s : Config) :
  ConfigWorld.set_artifacts_root value (quiet s)
  = lift (set_artifacts_root value s).
Proof.
  unfold ConfigWorld.set_artifacts_root, set_artifacts_root, bind, get.
  cbn [quiet ConfigWorld.store].
  destruct (get_active_project s).
  - apply quiet_set_projects.
  - unfold modify.
    match goal with |- _ = lift (save_config ?x) =>
      exact (quiet_save_config x) end.
Qed.

Lemma quiet_set_active_project_by_name (n : string) (s : Config) :
  ConfigWorld.set_active_project_by_name n (quiet s)
  = lift (set_active_project_by_name n s).
Proof.
  unfold ConfigWorld.set_active_project_by_name, set_active_project_by_name,
    bind, get.
  cbn [quiet ConfigWorld.store].
  destruct (existsb _ _); [|reflexivity].
  rewrite (quiet_set_active_project_name n s).
  destruct (set_active_project_name n s); reflexivity.
Qed.

Lemma quiet_remove_project (n : string) (s : Config) :
  ConfigWorld.remove_project n (quiet s) = lift (remove_project n s).
Proof.
  unfold ConfigWorld.remove_project, remove_project, bind, get.
  cbn [quiet ConfigWorld.store].
  destruct (_ <=? 1)%nat; [reflexivity|].
  rewrite (quiet_set_projects _ s).
  destruct (set_projects _ s) as [[] s1 | e s1]; [|reflexivity].
  cbn [lift quiet ConfigWorld.store].
  destruct (get_active_project_name s1 =? n)%string; [|reflexivity].
  destruct (filter _ _) as [|first rest]; [reflexivity|].
  rewrite (quiet_set_active_project_name (name first) s1).
  destruct (set_active_project_name (name first) s1); reflexivity.
Qed.

Lemma quiet_new_Config (module_file : string) (file : file_content)
    (werr : option exn) :
  ConfigWorld.new_Config module_file file werr None (fun _ => None) None
  = lift (new_Config module_file file werr).
Proof. destruct file; reflexivity. Qed.

(** ** The engine gateway *)

Import Gateway GatewayProps.

Lemma prefix_append (a b : string) : String.prefix a (a ++ b) = true.
Proof.
  induction a as [|c a IH]; simpl.
  - destruct b; reflexivity.
  - destruct (ascii_dec c c); [exact IH | congruence].
Qed.

Lemma contains_prefix (needle hay : string) :
  String.prefix needle hay = true -> contains needle hay = true.
Proof. intros H. destruct hay; cbn [contains]; rewrite H; reflexivity. Qed.

Lemma contains_append (a needle b : string) :
  contains needle (a ++ needle ++ b) = true.
Proof.
  induction a as [|c a IH].
  - change ("" ++ needle ++ b) with (needle ++ b).
    apply contains_prefix, prefix_append.
  - cbn [append contains]. rewrite IH. apply orb_true_r.
Qed.

Section GatewayFacts.

Variable Contract : Type.
Variable json_loads : string -> option Contract + loads_error.
Variable spawn : list string -> child.

Lemma execute_completed (cmd : list string) (self : EngineClient Contract)
    (d : Q) (out err : string) (rc : Z) :
  spawn cmd = Runs (Some d) out err rc -> Qle_bool d (30 # 1) = true ->
  let r :=
    if Z.eqb rc 0
    then match json_loads out with
         | inl value => mkEngineResult true value out err rc cmd
         | inr (NotJSON msg) =>
             mkEngineResult false None out
               ("JSON parse error: " ++ msg ++ "\n" ++ err) rc cmd
         | inr e =>
             mkEngineResult false None ""
               ("Engine execution failed: " ++ exn_str (loads_exn e)) (-1) cmd
         end
    else mkEngineResult false None out err rc cmd in
  _execute_engine json_loads spawn cmd self
  = Normal r (mkEngineClient (engine_path self) (Some r)).
Proof.
  intros Hs Hd. unfold _execute_engine, try_except, bind,
    subprocess_run, json_loads_call.
  rewrite Hs, Hd. cbn [ret cp_returncode cp_stdout cp_stderr].
  destruct (Z.eqb rc 0).
  - destruct (json_loads out) as [value | [msg | msg | msg]]; reflexivity.
  - reflexivity.
Qed.

Lemma execute_timed_out (cmd : list string) (self : EngineClient Contract)
    (d : option Q) (out err : string) (rc : Z) :
  spawn cmd = Runs d out err rc -> exceeds d (30 # 1) ->
  let r := mkEngineResult false None "" "Engine timeout after 30s" (-1) cmd in
  _execute_engine json_loads spawn cmd self
  = Normal r (mkEngineClient (engine_path self) (Some r)).
Proof.
  intros Hs Hd. unfold _execute_engine, try_except, bind, subprocess_run.
  rewrite Hs. destruct d as [q|]; cbn in Hd; [rewrite Hd|]; reflexivity.
Qed.

Lemma execute_launch_failed (cmd : list string) (self : EngineClient Contract)
    (msg : string) :
  spawn cmd = LaunchFails msg ->
  let r := mkEngineResult false None ""
             ("Engine execution failed: " ++ msg) (-1) cmd in
  _execute_engine json_loads spawn cmd self
  = Normal r (mkEngineClient (engine_path self) (Some r)).
Proof.
  intros Hs. unfold _execute_engine, try_except, bind, subprocess_run.
  rewrite Hs. reflexivity.
Qed.

Lemma execute_returns (cmd : list string) (self : EngineClient Contract) :
  exists r,
    _execute_engine json_loads spawn cmd self
    = Normal r (mkEngineClient (engine_path self) (Some r)).
Proof.
  destruct (spawn cmd) as [msg | d out err rc] eqn:Hs.
  - eexists. apply (@execute_launch_failed cmd self msg Hs).
  - destruct d as [q|].
    + destruct (Qle_bool q (30 # 1)) eqn:Hq.
      * eexists. apply (@execute_completed cmd self q out err rc Hs Hq).
      * eexists. apply (@execute_timed_out cmd self (Some q) out err rc Hs Hq).
    + eexists. apply (@execute_timed_out cmd self None out err rc Hs I).
Qed.

(** Claim C3, as the code has it.  When the child was started and exits
    within the timeout, the result has [ok = True] exactly when the exit
    code is 0 and [json.loads] returns a value for the standard output.
    With exit code 0 and an output on which [json.loads] raises
    [JSONDecodeError], [ok] is [False], there is no contract, the output and
    the exit code are passed on, and the text of the parse error is put in
    front of the diagnostic stream: [stderr] is ["JSON parse error: "], the
    error text and the two characters [\n], followed by what the child wrote
    to its standard error.  With exit code 0 and an output on which
    [json.loads] raises something else, the result is the one of a failed
    execution: [ok] is [False], there is no contract, the output is dropped,
    the exit code is [-1] and [stderr] is ["Engine execution failed: "]
    followed by the text of the exception. *)
Theorem execute_engine_classifies (cmd : list string)
    (self : EngineClient Contract) (d : Q) (out err : string) (rc : Z) :
  spawn cmd = Runs (Some d) out err rc -> Qle_bool d (30 # 1) = true ->
  exists r s',
    _execute_engine json_loads spawn cmd self = Normal r s' /\
    (ok r = true <-> rc = 0%Z /\ exists value, json_loads out = inl value) /\
    (rc = 0%Z -> forall msg, json_loads out = inr (NotJSON msg) ->
       ok r = false /\ contract r = None /\
       stdout r = out /\ code r = 0%Z /\
       stderr r = "JSON parse error: " ++ msg ++ "\n" ++ err /\
       contains msg (stderr r) = true) /\
    (rc = 0%Z -> forall e, json_loads out = inr e ->
       (forall msg, e <> NotJSON msg) ->
       ok r = false /\ contract r = None /\
       stdout r = "" /\ code r = (-1)%Z /\
       stderr r = "Engine execution failed: " ++ exn_str (loads_exn e)).
Proof.
  intros Hs Hd. eexists _, _.
  split; [apply (@execute_completed cmd self d out err rc Hs Hd)|].
  destruct (Z.eqb rc 0) eqn:E.
  - apply Z.eqb_eq in E. subst rc.
    destruct (json_loads out) as [value | [m | m | m]];
      cbn [ok contract stdout stderr code].
    + split; [|split].
      * split; [intros _; split; [reflexivity | exists value; reflexivity]
               | reflexivity].
      * intros _ msg H. discriminate H.
      * intros _ e H. discriminate H.
    + split; [|split].
      * split; [discriminate | intros (_ & value & H); discriminate H].
      * intros _ msg H. inversion H. subst.
        split; [reflexivity|]. split; [reflexivity|].
        split; [reflexivity|]. split; [reflexivity|].
        split; [reflexivity|]. apply contains_append.
      * intros _ e H Hne. inversion H. subst e.
        exfalso. exact (Hne m eq_refl).
    + split; [|split].
      * split; [discriminate | intros (_ & value & H); discriminate H].
      * intros _ msg H. discriminate H.
      * intros _ e H _. inversion H. subst e. cbn. auto.
    + split; [|split].
      * split; [discriminate | intros (_ & value & H); discriminate H].
      * intros _ msg H. discriminate H.
      * intros _ e H _. inversion H. subst e. cbn. auto.
  - apply Z.eqb_neq in E. cbn [ok contract stdout stderr code].
    split; [|split].
    + split; [discriminate | intros (H & _); contradiction].
    + intros H. contradiction.
    + intros H. contradiction.
Qed.

(** Claim C8.  When the child is still running after 30 seconds, the
    result has [ok = False], exit code [-1] and the diagnostic
    ["Engine timeout after 30s"]. *)
Theorem execute_engine_timeout (cmd : list string)
    (self : EngineClient Contract) (d : option Q) (out err : string) (rc : Z) :
  spawn cmd = Runs d out err rc -> exceeds d (30 # 1) ->
  exists r s',
    _execute_engine json_loads spawn cmd self = Normal r s' /\
    ok r = false /\ code r = (-1)%Z /\ contract r = None /\
    stderr r = "Engine timeout after 30s" /\
    contains "timeout" (stderr r) = true /\
    last_result s' = Some r.
Proof.
  intros Hs Hd. eexists _, _.
  split; [apply (@execute_timed_out cmd self d out err rc Hs Hd)|].
  cbn. repeat split.
Qed.

Variable path_exists : string -> bool.
Variable module_file : string.

(** Claim C4, as the code has it.  [_execute_engine] and the three
    operations built on it always return a result and record it; when the
    launch fails the result has [ok = False], exit code [-1], no contract,
    and the diagnostic ["Engine execution failed: "] followed by the text of
    the exception.  Building the gateway is the one operation that raises:
    it does so exactly when the engine script does not exist. *)
Theorem gateway_failures_returned (self : EngineClient Contract)
    (artifacts_root exec_id session_id output_file : string)
    (exec_opt session_opt : option string) (cmd : list string) :
  (exists r s', _execute_engine json_loads spawn cmd self = Normal r s'
     /\ last_result s' = Some r
     /\ forall msg, spawn cmd = LaunchFails msg ->
          ok r = false /\ code r = (-1)%Z /\ contract r = None /\
          stderr r = "Engine execution failed: " ++ msg) /\
  returns (get_latest_session json_loads spawn artifacts_root self) = true /\
  returns (get_specific_session json_loads spawn artifacts_root exec_id
             session_id self) = true /\
  returns (export_contract_to_file json_loads spawn artifacts_root
             output_file exec_opt session_opt self) = true /\
  (returns (new_EngineClient Contract path_exists module_file) = false <->
   path_exists (str_of_path
     (path_div (path_div (path_div
        (PosixPath.parent (PosixPath.parent (Path module_file)))
        "engine") "src") "index.js")) = false).
Proof.
  repeat match goal with |- _ /\ _ => split end.
  - destruct (execute_returns cmd self) as (r & Hr).
    eexists _, _. split; [exact Hr|]. split; [reflexivity|].
    intros msg Hs. rewrite (@execute_launch_failed cmd self msg Hs) in Hr.
    inversion Hr. subst r. cbn. auto.
  - unfold get_latest_session, bind, get.
    match goal with |- context [_execute_engine _ _ ?c self] =>
      destruct (execute_returns c self) as (r & ->) end.
    reflexivity.
  - unfold get_specific_session, bind, get.
    match goal with |- context [_execute_engine _ _ ?c self] =>
      destruct (execute_returns c self) as (r & ->) end.
    reflexivity.
  - unfold export_contract_to_file, bind, get.
    match goal with |- context [_execute_engine _ _ ?c self] =>
      destruct (execute_returns c self) as (r & ->) end.
    reflexivity.
  - unfold new_EngineClient, _get_engine_path, bind.
    destruct (path_exists _); cbn; split; congruence.
Qed.

End GatewayFacts.

Lemma execute_engine_classifies_witness :
  exists r s',
    _execute_engine sample_loads sample_spawn
      ["node"; "index.js"; "--root"; "/work/a/execledger"; "--latest"]
      (mkEngineClient (Path "index.js") None) = Normal r s' /\
    ok r = false /\ contract r = None /\
    stdout r = "not json" /\ code r = 0%Z /\
    stderr r
    = "JSON parse error: Expecting value: line 1 column 1 (char 0)\nwarning"
    /\ contains "Expecting value: line 1 column 1 (char 0)" (stderr r) = true.
Proof.
  destruct (@execute_engine_classifies unit sample_loads sample_spawn
              ["node"; "index.js"; "--root"; "/work/a/execledger"; "--latest"]
              (mkEngineClient (Path "index.js") None)
              (1 # 1)%Q "not json" "warning" 0%Z eq_refl eq_refl)
    as (r & s' & Hr & _ & H & _).
  exists r, s'. split; [exact Hr|].
  exact (H eq_refl "Expecting value: line 1 column 1 (char 0)" eq_refl).
Defined.

(** The parse error is not appended: the diagnostic stream of the result
    starts with it, not with what the child wrote.  And an output that
    [json.loads] gives up on is not reported as a parse error at all: the
    child exited with code 0 in time, yet the result is the one of a failed
    execution. *)
Lemma parse_error_not_appended :
  (exists r s',
     _execute_engine sample_loads sample_spawn
       ["node"; "index.js"; "--root"; "/work/a/execledger"; "--latest"]
       (mkEngineClient (Path "index.js") None) = Normal r s' /\
     stderr r
     = "JSON parse error: Expecting value: line 1 column 1 (char 0)\nwarning"
     /\ String.prefix "warning" (stderr r) = false) /\
  (exists r s',
     _execute_engine sample_loads deep_spawn ["node"; "index.js"]
       (mkEngineClient (Path "index.js") None) = Normal r s' /\
     ok r = false /\ stdout r = "" /\ code r = (-1)%Z /\
     stderr r
     = "Engine execution failed: maximum recursion depth exceeded "
       ++ "while decoding a JSON array from a unicode string" /\
     contains "JSON parse error" (stderr r) = false).
Proof.
  split; eexists _, _; (split; [vm_compute; reflexivity|]);
    vm_compute; repeat split.
Qed.

Lemma execute_engine_timeout_witness :
  exists r s',
    _execute_engine sample_loads sample_spawn
      ["node"; "index.js"; "--root"; "/r"; "--exec"; "e1"; "--session"; "s1"]
      (mkEngineClient (Path "index.js") None) = Normal r s' /\
    ok r = false /\ code r = (-1)%Z /\
    stderr r = "Engine timeout after 30s".
Proof.
  destruct (@execute_engine_timeout unit sample_loads sample_spawn
              ["node"; "index.js"; "--root"; "/r"; "--exec"; "e1";
               "--session"; "s1"]
              (mkEngineClient (Path "index.js") None)
              None "" "" 0%Z eq_refl I)
    as (r & s' & Hr & Hok & Hcode & _ & Herr & _).
  exists r, s'. auto.
Defined.

Lemma gateway_failures_returned_witness :
  exists r s',
    _execute_engine sample_loads sample_spawn ["node"]
      (mkEngineClient (Path "index.js") None) = Normal r s' /\
    ok r = false /\ code r = (-1)%Z /\ contract r = None /\
    stderr r
    = "Engine execution failed: [Errno 2] No such file or directory: 'node'".
Proof.
  destruct (@gateway_failures_returned unit sample_loads sample_spawn no_path
              "" (mkEngineClient (Path "index.js") None) "" "" "" ""
              None None ["node"])
    as ((r & s' & Hr & _ & H) & _).
  exists r, s'. split; [exact Hr|].
  exact (H "[Errno 2] No such file or directory: 'node'" eq_refl).
Defined.

(** Building the gateway where the engine script is missing raises. *)
Lemma new_EngineClient_raises :
  new_EngineClient unit no_path "/repo/desktop-companion/ui/engine_client.py"
  = Raised (FileNotFoundError
      "Engine not found at: /repo/desktop-companion/engine/src/index.js") tt.
Proof. vm_compute. reflexivity. Qed.

(** * Further properties *)

Import MoreProps.

(** ** Normalized and derived paths *)

Lemma render_not_nil (i : nat) (l : list str) : render i l <> [].
Proof.
  unfold render. cbv zeta.
  match goal with |- context [is_empty ?x] => destruct x end;
    discriminate.
Qed.

Lemma text_not_empty (a : str) : a <> [] -> text a <> "".
Proof. destruct a; [congruence | discriminate]. Qed.

Lemma normpath_text_render (i : nat) (l : list str) :
  canonical i l -> os_path_normpath (text (render i l)) = text (render i l).
Proof.
  intros Hc. unfold os_path_normpath.
  rewrite list_ascii_of_string_of_list_ascii, (normpath_render Hc).
  reflexivity.
Qed.

(** Property X1.  What [normalize_project_root] returns is a normalized
    path, one that [os.path.normpath] leaves as it is, and never the empty
    string: the empty input gives ["."]. *)
Theorem normalize_project_root_normal (P : string) :
  os_path_normpath (normalize_project_root P) = normalize_project_root P /\
  normalize_project_root P <> "".
Proof.
  destruct (normalize_canonical P) as (i & l & Hc & ->). split.
  - apply normpath_text_render. exact Hc.
  - apply text_not_empty, render_not_nil.
Qed.

Lemma canonical_execledger (i : nat) (l : list str) :
  canonical i l -> canonical i (l ++ [chars "execledger"]).
Proof.
  intros Hc. apply canonical_snoc; auto; apply segment_execledger.
Qed.

Lemma derive_of_normalize (P : string) (i : nat) (l : list str) :
  canonical i l -> normalize_project_root P = text (render i l) ->
  derive_artifacts_root P = text (render i (l ++ [chars "execledger"])).
Proof.
  intros Hc Hn. unfold derive_artifacts_root. rewrite Hn.
  apply derive_render. exact Hc.
Qed.

Lemma normalize_derive (P : string) :
  normalize_project_root (derive_artifacts_root P) = normalize_project_root P.
Proof.
  destruct (normalize_canonical P) as (i & l & Hc & Hn).
  rewrite (derive_of_normalize P Hc Hn), Hn.
  rewrite (normalize_render (canonical_execledger Hc)).
  rewrite last_last, removelast_last. reflexivity.
Qed.

(** Property X2.  The artifacts root is undone by the normalization:
    [normalize_project_root] of a derived artifacts root is the normalized
    project root it was derived from, so that deriving twice is deriving
    once.  A derived artifacts root always has the last segment
    [execledger], and its parent is the normalized project root. *)
Theorem derive_artifacts_root_idempotent (P : string) :
  normalize_project_root (derive_artifacts_root P)
  = normalize_project_root P /\
  derive_artifacts_root (derive_artifacts_root P) = derive_artifacts_root P /\
  final_segment (derive_artifacts_root P) = "execledger" /\
  str_of_path (parent (Path (derive_artifacts_root P)))
  = normalize_project_root P.
Proof.
  split; [apply normalize_derive|]. split.
  - unfold derive_artifacts_root at 1. rewrite normalize_derive. reflexivity.
  - destruct (normalize_canonical P) as (i & l & Hc & Hn).
    rewrite (derive_of_normalize P Hc Hn), Hn.
    rewrite (final_segment_render (canonical_execledger Hc)), last_last.
    split; [reflexivity|].
    unfold str_of_path, Path.
    rewrite list_ascii_of_string_of_list_ascii,
      (parse_render (canonical_execledger Hc)).
    unfold parent. cbn [PosixPath.tail PosixPath.root].
    destruct (l ++ [chars "execledger"])%list eqn:E.
    + destruct l; discriminate E.
    + rewrite <- E, removelast_last. reflexivity.
Qed.

Lemma normalize_stable (P : string) :
  is_reserved (final_segment (normalize_project_root P)) = false ->
  normalize_project_root (normalize_project_root P) = normalize_project_root P.
Proof.
  destruct (normalize_canonical P) as (i & l & Hc & ->).
  rewrite (final_segment_render Hc), (normalize_render Hc).
  intros ->. reflexivity.
Qed.

Lemma derive_normalize_stable (P : string) :
  is_reserved (final_segment (normalize_project_root P)) = false ->
  derive_artifacts_root (normalize_project_root P) = derive_artifacts_root P.
Proof.
  intros H. unfold derive_artifacts_root at 1.
  rewrite (normalize_stable P H). reflexivity.
Qed.

(** ** Migration of legacy entries *)

Lemma startswith_app (p s : str) : startswith p (p ++ s)%list = true.
Proof.
  induction p as [|c p IH]; [reflexivity|].
  cbn [app startswith]. rewrite Ascii.eqb_refl, IH. reflexivity.
Qed.

Lemma endswith_app (p x : str) : endswith p (x ++ p)%list = true.
Proof. unfold endswith. rewrite rev_app_distr. apply startswith_app. Qed.

Lemma join_snoc_suffix (l : list str) (e : str) :
  exists pre, join (l ++ [e]) = (pre ++ e)%list.
Proof.
  induction l as [|w l (pre & IH)].
  - exists []. reflexivity.
  - exists (w ++ sep :: pre)%list.
    change ((w :: l) ++ [e])%list with (w :: (l ++ [e]))%list.
    destruct (l ++ [e])%list eqn:E; [destruct l; discriminate E|].
    cbn [join]. cbn [join] in IH. rewrite IH, <- app_assoc. reflexivity.
Qed.

Lemma render_snoc_suffix (i : nat) (l : list str) (e : str) :
  e <> [] -> exists pre, render i (l ++ [e]) = (pre ++ e)%list.
Proof.
  intros He. destruct (join_snoc_suffix l e) as (pre & Hj).
  exists (repeat sep i ++ pre)%list. unfold render. rewrite Hj, app_assoc.
  cbv zeta.
  destruct ((repeat sep i ++ pre) ++ e)%list eqn:E; [|reflexivity].
  apply app_eq_nil in E. tauto.
Qed.

Lemma derive_endswith (P : string) :
  str_endswith (derive_artifacts_root P) "execledger" = true.
Proof.
  destruct (normalize_canonical P) as (i & l & Hc & Hn).
  rewrite (derive_of_normalize P Hc Hn). unfold str_endswith.
  rewrite list_ascii_of_string_of_list_ascii.
  destruct (@render_snoc_suffix i l (chars "execledger")) as (pre & Hp);
    [discriminate|].
  unfold str in *. rewrite Hp. apply endswith_app.
Qed.

Lemma parent_of_derive (P : string) :
  str_of_path (parent (Path (derive_artifacts_root P)))
  = normalize_project_root P.
Proof.
  destruct (normalize_canonical P) as (i & l & Hc & Hn).
  rewrite (derive_of_normalize P Hc Hn), Hn.
  unfold str_of_path, Path.
  rewrite list_ascii_of_string_of_list_ascii,
    (parse_render (canonical_execledger Hc)).
  unfold parent. cbn [PosixPath.tail PosixPath.root].
  destruct (l ++ [chars "execledger"])%list eqn:E.
  - destruct l; discriminate E.
  - rewrite <- E, removelast_last. reflexivity.
Qed.

(** Property X3.  Migration of a legacy entry whose artifacts root was
    derived from a project root [Q]: when the normalized [Q] does not end in
    a reserved name, the entry gets the project root
    [normalize_project_root Q] and keeps its artifacts root. *)
Theorem legacy_entry_of_derived (module_file Q : string) (n : option string) :
  is_reserved (final_segment (normalize_project_root Q)) = false ->
  normalize_project_entry module_file
    (mkEntry n None (Some (derive_artifacts_root Q)))
  = mkProject (entry_get_name (mkEntry n None (Some (derive_artifacts_root Q))))
      (normalize_project_root Q) (derive_artifacts_root Q).
Proof.
  intros H. unfold normalize_project_entry.
  cbn [entry_project_root entry_artifacts_root].
  rewrite derive_endswith, orb_true_r, parent_of_derive.
  rewrite (normalize_stable Q H), (derive_normalize_stable Q H). reflexivity.
Qed.

Lemma legacy_entry_of_derived_witness :
  normalize_project_entry sample_module_file
    (mkEntry None None (Some (derive_artifacts_root "/srv/app")))
  = mkProject "ExecLedger" "/srv/app" "/srv/app/execledger".
Proof.
  apply (@legacy_entry_of_derived sample_module_file "/srv/app" None).
  vm_compute. reflexivity.
Defined.

(** ** Projects of the store *)

Lemma find_upsert_list (n r a : string) (ps : list Project) :
  find (fun p => name p =? n) (upsert_list n r a ps) = Some (mkProject n r a).
Proof.
  induction ps as [|p ps IH]; simpl.
  - rewrite String.eqb_refl. reflexivity.
  - destruct (name p =? n) eqn:E; simpl.
    + rewrite E. apply String.eqb_eq in E. rewrite E. reflexivity.
    + rewrite E. exact IH.
Qed.

Lemma find_upsert_list_other (n m r a : string) (ps : list Project) :
  m <> n ->
  find (fun p => name p =? m) (upsert_list n r a ps)
  = find (fun p => name p =? m) ps.
Proof.
  intros Hm. induction ps as [|p ps IH]; simpl.
  - replace (n =? m) with false; [reflexivity|].
    symmetry. apply String.eqb_neq. congruence.
  - destruct (name p =? n) eqn:E; simpl.
    + apply String.eqb_eq in E.
      replace (name p =? m) with false; [reflexivity|].
      symmetry. apply String.eqb_neq. congruence.
    + rewrite IH. reflexivity.
Qed.

Lemma names_upsert_list (n r a : string) (ps : list Project) :
  (In n (map name ps) -> map name (upsert_list n r a ps) = map name ps) /\
  (~ In n (map name ps) ->
   map name (upsert_list n r a ps) = (map name ps ++ [n])%list).
Proof.
  induction ps as [|p ps [IH1 IH2]]; simpl.
  - split; [intros [] | reflexivity].
  - destruct (name p =? n) eqn:E; simpl.
    + apply String.eqb_eq in E. split; [reflexivity|].
      intros H. exfalso. apply H. left. exact E.
    + apply String.eqb_neq in E. split.
      * intros [H|H]; [contradiction|]. rewrite IH1; auto.
      * intros H. rewrite IH2; auto.
Qed.

Lemma names_assign_first (n r a : string) (ps : list Project) :
  map name (assign_first n r a ps) = map name ps.
Proof.
  induction ps as [|p ps IH]; simpl; [reflexivity|].
  destruct (name p =? n); simpl; [reflexivity | rewrite IH; reflexivity].
Qed.

Lemma find_assign_first (n r a : string) (ps : list Project) (p : Project) :
  find (fun q => name q =? n) ps = Some p ->
  find (fun q => name q =? n) (assign_first n r a ps)
  = Some (mkProject (name p) r a).
Proof.
  induction ps as [|q ps IH]; simpl; [discriminate|].
  destruct (name q =? n) eqn:E; simpl.
  - intros H. inversion H. subst q. rewrite E. reflexivity.
  - rewrite E. exact IH.
Qed.

Lemma find_name (n : string) (ps : list Project) (p : Project) :
  find (fun q => name q =? n) ps = Some p -> name p = n /\ In p ps.
Proof.
  intros H. apply find_some in H as [Hin E].
  apply String.eqb_eq in E. auto.
Qed.

Lemma find_in_names (n : string) (ps : list Project) :
  In n (map name ps) <-> exists p, find (fun q => name q =? n) ps = Some p.
Proof.
  split.
  - intros H. apply in_map_iff in H as (q & Hq & Hin).
    destruct (find (fun q => name q =? n) ps) as [p|] eqn:E; [eauto|].
    exfalso. apply (find_none _ _ E) in Hin.
    rewrite Hq, String.eqb_refl in Hin. discriminate.
  - intros (p & H). apply find_name in H as [Hn Hin].
    rewrite <- Hn. apply in_map. exact Hin.
Qed.

Lemma existsb_in_names (n : string) (ps : list Project) :
  existsb (fun p => name p =? n) ps = true <-> In n (map name ps).
Proof.
  rewrite existsb_exists, in_map_iff. split.
  - intros (p & Hin & E). apply String.eqb_eq in E. eauto.
  - intros (p & E & Hin). exists p. rewrite E, String.eqb_refl. auto.
Qed.

(** ** What the operations leave *)

Lemma upsert_project_state (self : Config) (n r : string) :
  exists s',
    upsert_project n r self = Normal tt s' /\
    get_projects s'
    = upsert_list n (normalize_project_root r)
        (derive_artifacts_root (normalize_project_root r))
        (get_projects self) /\
    get_active_project_name s' = get_active_project_name self /\
    write_error s' = write_error self /\
    (write_error self = None -> synced s').
Proof.
  unfold upsert_project, bind, get.
  match goal with |- context [set_projects ?ps self] =>
    destruct (set_projects_returns ps self) as (s' & -> & Hc & Hw & Hf) end.
  exists s'. unfold get_projects, get_active_project_name, synced.
  rewrite Hc. repeat split; auto.
  intros Hn. rewrite (Hf Hn), Hc. reflexivity.
Qed.

Lemma set_active_by_name_state (self : Config) (n : string) :
  (In n (project_names self) ->
   exists s',
     set_active_project_by_name n self = Normal true s' /\
     get_active_project_name s' = n /\
     get_projects s' = get_projects self /\
     write_error s' = write_error self /\
     (write_error self = None -> synced s')) /\
  (~ In n (project_names self) ->
   set_active_project_by_name n self = Normal false self).
Proof.
  unfold set_active_project_by_name, bind, get, project_names.
  destruct (existsb _ (get_projects self)) eqn:E.
  - apply existsb_in_names in E. split; [|contradiction]. intros _.
    destruct (set_active_project_name_returns n self)
      as (s' & -> & Hc & Hw & Hf).
    exists s'. unfold get_projects, get_active_project_name, synced.
    rewrite Hc. repeat split; auto.
    intros Hn. rewrite (Hf Hn), Hc. reflexivity.
  - split; [|reflexivity]. intros H. apply existsb_in_names in H. congruence.
Qed.

(** Property X4.  After [upsert_project n r] the first project named [n] has the
    normalized root and the artifacts root derived from it, and the lookup of
    every other name gives what it gave before. *)
Theorem upsert_then_find (self : Config) (n r : string) :
  exists s',
    upsert_project n r self = Normal tt s' /\
    find_project n s'
    = Some (mkProject n (normalize_project_root r)
              (derive_artifacts_root (normalize_project_root r))) /\
    forall m, m <> n -> find_project m s' = find_project m self.
Proof.
  destruct (upsert_project_state self n r) as (s' & Hr & Hp & _).
  exists s'. split; [exact Hr|]. unfold find_project. rewrite Hp. split.
  - apply find_upsert_list.
  - intros m Hm. apply find_upsert_list_other. exact Hm.
Qed.

Lemma upsert_then_find_witness :
  exists s',
    upsert_project "B" "/srv/b/_artifacts" two_project_store = Normal tt s' /\
    find_project "B" s' = Some (mkProject "B" "/srv/b" "/srv/b/execledger") /\
    find_project "A" s' = find_project "A" two_project_store.
Proof.
  destruct (upsert_then_find two_project_store "B" "/srv/b/_artifacts")
    as (s' & Hr & Hf & Ho).
  exists s'. split; [exact Hr|]. split; [exact Hf|].
  apply Ho. discriminate.
Defined.

(** Property X5.
    [upsert_project] keeps the names and their order: the name is added at
    the end when it is new, and the list of names is unchanged when it is
    not; distinct names stay distinct. *)
Theorem upsert_names (self : Config) (n r : string) :
  let s' := state_of (upsert_project n r self) in
  (In n (project_names self) -> project_names s' = project_names self) /\
  (~ In n (project_names self) ->
   project_names s' = (project_names self ++ [n])%list) /\
  (NoDup (project_names self) -> NoDup (project_names s')).
Proof.
  destruct (upsert_project_state self n r) as (s' & -> & Hp & _).
  cbn [state_of]. unfold project_names. rewrite Hp.
  destruct (names_upsert_list n (normalize_project_root r)
              (derive_artifacts_root (normalize_project_root r))
              (get_projects self)) as [H1 H2].
  repeat split; auto.
  intros Hnd.
  destruct (in_dec string_dec n (map name (get_projects self))) as [Hin|Hin].
  - rewrite (H1 Hin). exact Hnd.
  - rewrite (H2 Hin). apply NoDup_app; repeat split; auto.
    + constructor; [intros []|constructor].
    + intros x Hx [Hx'|[]]. subst. contradiction.
Qed.

Lemma upsert_names_witness :
  project_names (state_of (upsert_project "C" "/work/c" two_project_store))
  = ["A"; "B"; "C"] /\
  project_names (state_of (upsert_project "A" "/work/c" two_project_store))
  = ["A"; "B"] /\
  NoDup (project_names
           (state_of (upsert_project "C" "/work/c" two_project_store))).
Proof.
  pose proof (upsert_names two_project_store "C" "/work/c") as (_ & H2 & H3).
  pose proof (upsert_names two_project_store "A" "/work/c") as (H1 & _).
  split; [|split].
  - rewrite H2; [reflexivity|]. vm_compute. intuition discriminate.
  - rewrite H1; [reflexivity|]. vm_compute. auto.
  - apply H3. vm_compute. repeat constructor; simpl; intuition discriminate.
Defined.




Lemma set_artifacts_root_state (self : Config) (value : string) :
  exists s',
    set_artifacts_root value self = Normal tt s' /\
    get_active_project_name s' = get_active_project_name self /\
    write_error s' = write_error self /\
    (write_error self = None -> synced s') /\
    match get_active_project self with
    | Some _ =>
        get_projects s'
        = assign_first (get_active_project_name self) value
            (derive_artifacts_root value) (get_projects self) /\
        cfg_artifacts_root (_config s') = cfg_artifacts_root (_config self)
    | None =>
        get_projects s' = get_projects self /\
        cfg_artifacts_root (_config s') = value
    end.
Proof.
  unfold set_artifacts_root, bind, get, modify.
  destruct (get_active_project self).
  - match goal with |- context [set_projects ?ps self] =>
      destruct (set_projects_returns ps self) as (s' & -> & Hc & Hw & Hf) end.
    exists s'. unfold get_projects, get_active_project_name, synced.
    rewrite Hc. repeat split; auto.
    intros Hn. rewrite (Hf Hn), Hc. reflexivity.
  - match goal with |- context [save_config ?x] =>
      destruct (save_config_returns x) as (s' & -> & Hc & _ & Hw & Hf) end.
    exists s'. unfold get_projects, get_active_project_name, synced.
    rewrite Hc. repeat split; auto.
    intros Hn. rewrite (Hf Hn). reflexivity.
Qed.

(** Property X8.
    Writing the [artifacts_root] property and reading it back.  With an
    active project the value is taken as its project root (stored as given)
    and the property then reads as the artifacts root derived from it; no
    project is added or renamed.  Without an active project the value goes
    to the legacy field and is read back as written. *)
Theorem artifacts_root_write_read (self : Config) (value : string) :
  exists s',
    set_artifacts_root value self = Normal tt s' /\
    project_names s' = project_names self /\
    (forall p, get_active_project self = Some p ->
       get_active_project s'
       = Some (mkProject (name p) value (derive_artifacts_root value)) /\
       get_active_artifacts_root s' = derive_artifacts_root value) /\
    (get_active_project self = None ->
       get_projects s' = get_projects self /\
       get_active_artifacts_root s' = value).
Proof.
  destruct (set_artifacts_root_state self value)
    as (s' & Hr & Ha & _ & _ & H).
  exists s'. split; [exact Hr|].
  unfold get_active_artifacts_root, get_active_project, project_names in *.
  rewrite Ha.
  destruct (find _ (get_projects self)) as [p|] eqn:Ef.
  - destruct H as [Hp _]. rewrite Hp, names_assign_first.
    split; [reflexivity|]. split; [|discriminate].
    intros q Hq. inversion Hq. subst q.
    rewrite (find_assign_first _ _ _ _ Ef). split; reflexivity.
  - destruct H as [Hp Hl]. rewrite Hp, Ef, Hl.
    split; [reflexivity|]. split; [discriminate|]. auto.
Qed.

Lemma artifacts_root_write_read_witness :
  exists s',
    set_artifacts_root "/data/run" default_store = Normal tt s' /\
    get_active_artifacts_root s' = "/data/run/execledger".
Proof.
  destruct (artifacts_root_write_read default_store "/data/run")
    as (s' & Hr & _ & H & _).
  exists s'. split; [exact Hr|].
  exact (proj2 (H _ eq_refl)).
Defined.

Lemma remove_project_state (self : Config) (n : string) :
  2 <= List.length (get_projects self) ->
  exists s',
    remove_project n self = Normal true s' /\
    get_projects s'
    = filter (fun p => negb (name p =? n)) (get_projects self) /\
    write_error s' = write_error self /\
    (write_error self = None -> synced s') /\
    get_active_project_name s'
    = (if get_active_project_name self =? n
       then match get_projects s' with
            | first :: _ => name first
            | [] => get_active_project_name self
            end
       else get_active_project_name self).
Proof.
  intros Hlen. unfold remove_project, bind, get.
  destruct (List.length (get_projects self) <=? 1)%nat eqn:E;
    [apply Nat.leb_le in E; lia|].
  set (ps := filter (fun p => negb (name p =? n)) (get_projects self)).
  destruct (set_projects_returns ps self) as (s1 & -> & Hc1 & Hw1 & Hf1).
  assert (Hact : get_active_project_name s1 = get_active_project_name self)
    by (unfold get_active_project_name; rewrite Hc1; reflexivity).
  assert (Hps1 : get_projects s1 = ps)
    by (unfold get_projects; rewrite Hc1; reflexivity).
  rewrite Hact.
  destruct (get_active_project_name self =? n) eqn:Ea.
  - destruct ps as [|first rest] eqn:Eps.
    + exists s1. cbn [ret]. rewrite Hps1. repeat split; auto.
    + destruct (set_active_project_name_returns (name first) s1)
        as (s2 & -> & Hc2 & Hw2 & Hf2).
      exists s2. cbn [ret].
      assert (Hps2 : get_projects s2 = first :: rest)
        by (unfold get_projects; rewrite Hc2; cbn;
            fold (get_projects s1); exact Hps1).
      rewrite Hps2. repeat split; auto.
      * congruence.
      * intros Hn. unfold synced. rewrite Hf2; [reflexivity | congruence].
      * unfold get_active_project_name. rewrite Hc2. reflexivity.
  - exists s1. cbn [ret]. rewrite Hps1. repeat split; auto.
Qed.



Lemma filter_two_distinct (n : string) (ps : list Project) :
  NoDup (map name ps) -> 2 <= List.length ps ->
  filter (fun p => negb (name p =? n)) ps <> [].
Proof.
  intros Hnd Hlen. destruct ps as [|a [|b l]]; simpl in Hlen; try lia.
  simpl. inversion Hnd as [|? ? Hnotin _]; subst.
  destruct (name a =? n) eqn:Ea; [|discriminate].
  destruct (name b =? n) eqn:Eb; [|discriminate].
  apply String.eqb_eq in Ea, Eb. exfalso. apply Hnotin. left. congruence.
Qed.



(** ** The last project *)

Lemma NoDup_snoc (n : string) (l : list string) :
  NoDup l -> ~ In n l -> NoDup (l ++ [n])%list.
Proof.
  induction 1 as [|x l Hx Hl IH]; intros Hn; simpl.
  - constructor; [intros [] | constructor].
  - constructor.
    + intros H. apply in_app_or in H as [H|[H|[]]]; [contradiction|].
      apply Hn. left. symmetry. exact H.
    + apply IH. intros H. apply Hn. right. exact H.
Qed.

Lemma NoDup_names_filter (f : Project -> bool) (ps : list Project) :
  NoDup (map name ps) -> NoDup (map name (filter f ps)).
Proof.
  induction ps as [|p ps IH]; intros H; simpl; [constructor|].
  inversion H as [|? ? Hnotin Hnd]; subst.
  destruct (f p); simpl; [|apply IH; exact Hnd].
  constructor; [|apply IH; exact Hnd].
  intros Hin. apply Hnotin. apply in_map_iff in Hin as (q & Hq & Hin).
  apply in_map_iff. exists q. split; [exact Hq|].
  apply filter_In in Hin. tauto.
Qed.

Lemma names_not_nil (ps : list Project) : map name ps <> [] -> ps <> [].
Proof. intros H E. subst ps. apply H. reflexivity. Qed.

Lemma guarded_names (s s' : Config) :
  project_names s' = project_names s -> guarded s -> guarded s'.
Proof.
  unfold guarded, project_names. intros E [Hnd Hne]. rewrite E.
  split; [exact Hnd|]. apply names_not_nil. rewrite E.
  destruct (get_projects s); [congruence | discriminate].
Qed.

Lemma guarded_step (s : Config) :
  guarded s ->
  (forall n r, guarded (state_of (upsert_project n r s))) /\
  (forall n, guarded (state_of (remove_project n s))) /\
  (forall value, guarded (state_of (set_artifacts_root value s))) /\
  (forall n, guarded (state_of (set_active_project_by_name n s))) /\
  (forall n, guarded (state_of (set_active_project_name n s))) /\
  (forall value, guarded (state_of (set_tier value s))) /\
  (forall value, guarded (state_of (set_dev_mode value s))).
Proof.
  intros Hg. pose proof Hg as [Hnd Hne].
  repeat match goal with |- _ /\ _ => split end.
  - intros n r. destruct (upsert_project_state s n r)
      as (s' & -> & Hp & _).
    cbn [state_of]. unfold guarded, project_names. rewrite Hp.
    destruct (names_upsert_list n (normalize_project_root r)
                (derive_artifacts_root (normalize_project_root r))
                (get_projects s)) as [H1 H2].
    destruct (in_dec string_dec n (map name (get_projects s))) as [Hi|Hi].
    + rewrite (H1 Hi). split; [exact Hnd|].
      apply names_not_nil. rewrite (H1 Hi).
      destruct (get_projects s); [congruence | discriminate].
    + rewrite (H2 Hi). split; [apply NoDup_snoc; assumption|].
      apply names_not_nil. rewrite (H2 Hi).
      destruct (map name (get_projects s)); discriminate.
  - intros n.
    destruct (le_lt_dec 2 (List.length (get_projects s))) as [Hlen|Hlen].
    + destruct (remove_project_state s n Hlen) as (s' & -> & Hp & _).
      cbn [state_of]. unfold guarded, project_names. rewrite Hp.
      split; [apply NoDup_names_filter; exact Hnd|].
      apply filter_two_distinct; assumption.
    + unfold remove_project, bind, get.
      replace (List.length (get_projects s) <=? 1)%nat with true
        by (symmetry; apply Nat.leb_le; lia).
      exact Hg.
  - intros value. destruct (set_artifacts_root_state s value)
      as (s' & -> & _ & _ & _ & H).
    cbn [state_of]. apply (@guarded_names s s'); [|exact Hg].
    unfold project_names.
    destruct (get_active_project s); destruct H as [Hp _]; rewrite Hp;
      [apply names_assign_first | reflexivity].
  - intros n. destruct (set_active_by_name_state s n) as [H1 H2].
    destruct (in_dec string_dec n (project_names s)) as [Hi|Hi].
    + destruct (H1 Hi) as (s' & -> & _ & Hp & _).
      cbn [state_of]. apply (@guarded_names s s'); [|exact Hg].
      unfold project_names. rewrite Hp. reflexivity.
    + rewrite (H2 Hi). exact Hg.
  - intros n. destruct (set_active_project_name_returns n s)
      as (s' & -> & Hc & _).
    cbn [state_of]. apply (@guarded_names s s'); [|exact Hg].
    unfold project_names, get_projects. rewrite Hc. reflexivity.
  - intros value. unfold set_tier.
    destruct (existsb _ _); [|exact Hg].
    unfold bind, modify. after_save s' Hc.
    cbn [state_of]. apply (@guarded_names s s'); [|exact Hg].
    unfold project_names, get_projects. rewrite Hc. reflexivity.
  - intros value. unfold set_dev_mode, bind, modify. after_save s' Hc.
    cbn [state_of]. apply (@guarded_names s s'); [|exact Hg].
    unfold project_names, get_projects. rewrite Hc. reflexivity.
Qed.

(** Claim C7, as the code has it.  On a store with exactly one project
    [remove_project] returns [False] and leaves the whole state as it was,
    whatever the name.  A store whose projects have distinct names and that
    holds a project keeps both through every operation: it holds a project
    at all times. *)
Theorem remove_last_project_refused (self : Config) (n : string) :
  (List.length (get_projects self) = 1 ->
   remove_project n self = Normal false self) /\
  (guarded self ->
   forall s', operated self s' ->
     guarded s' /\ 1 <= List.length (get_projects s')).
Proof.
  split.
  - intros H. unfold remove_project, bind, get. rewrite H. reflexivity.
  - intros Hg s' Hop.
    assert (H : guarded s').
    { induction Hop as [|s m r _ IH|s m _ IH|s v _ IH|s m _ IH|s m _ IH
                        |s v _ IH|s v _ IH].
      - exact Hg.
      - apply (proj1 (guarded_step IH)).
      - apply (proj1 (proj2 (guarded_step IH))).
      - apply (proj1 (proj2 (proj2 (guarded_step IH)))).
      - apply (proj1 (proj2 (proj2 (proj2 (guarded_step IH))))).
      - apply (proj1 (proj2 (proj2 (proj2 (proj2 (guarded_step IH)))))).
      - apply (proj1 (proj2 (proj2 (proj2 (proj2 (proj2
                 (guarded_step IH))))))).
      - apply (proj2 (proj2 (proj2 (proj2 (proj2 (proj2
                 (guarded_step IH))))))). }
    split; [exact H|]. destruct H as [_ Hne].
    destruct (get_projects s'); [congruence | simpl; lia].
Qed.

Lemma remove_last_project_refused_witness :
  remove_project "ExecLedger" default_store = Normal false default_store /\
  1 <= List.length
         (get_projects
            (state_of (remove_project "B"
               (state_of (remove_project "A" two_project_store))))).
Proof.
  split.
  - apply (proj1 (remove_last_project_refused default_store "ExecLedger")).
    reflexivity.
  - apply (proj2 (remove_last_project_refused two_project_store "A")).
    + split.
      * vm_compute. repeat constructor; simpl; intuition discriminate.
      * vm_compute. discriminate.
    + apply op_remove. apply op_remove. apply op_none.
Defined.

(** Two projects of one name are removed together, and a file can list no
    project at all: a store can be empty. *)
Lemma remove_project_empties_store :
  List.length (get_projects same_name_store) = 2 /\
  (exists s', remove_project "A" same_name_store = Normal true s' /\
              get_projects s' = []) /\
  get_projects no_project_store = [].
Proof.
  split; [vm_compute; reflexivity|]. split; [|vm_compute; reflexivity].
  eexists. split; vm_compute; reflexivity.
Qed.

Lemma save_config_synced (s : Config) :
  write_error s = None -> synced (state_of (save_config s)).
Proof.
  intros Hn. destruct (save_config_returns s) as (s' & -> & _ & _ & _ & Hf).
  cbn [state_of]. rewrite (Hf Hn). reflexivity.
Qed.

(** Property X11.
    Write-through: when the file can be written, every operation that
    changes the store leaves in the file exactly what [save_config] writes
    for the configuration in memory. *)
Theorem write_through (self : Config) :
  write_error self = None ->
  (forall n r, synced (state_of (upsert_project n r self))) /\
  (forall value, synced (state_of (set_artifacts_root value self))) /\
  (forall value, synced (state_of (set_dev_mode value self))) /\
  (forall value, In value ["FREE"; "PRO"; "PREMIUM"] ->
                 synced (state_of (set_tier value self))) /\
  (forall n, In n (project_names self) ->
             synced (state_of (set_active_project_by_name n self))) /\
  (forall n, 2 <= List.length (get_projects self) ->
             synced (state_of (remove_project n self))).
Proof.
  intros Hn. repeat match goal with |- _ /\ _ => split end.
  - intros n r. destruct (upsert_project_state self n r)
      as (s' & -> & _ & _ & _ & H). exact (H Hn).
  - intros value. destruct (set_artifacts_root_state self value)
      as (s' & -> & _ & _ & H & _). exact (H Hn).
  - intros value. unfold set_dev_mode, bind, modify.
    match goal with |- context [save_config ?x] =>
      pose proof (@save_config_synced x Hn) as H;
      destruct (save_config x) end; exact H.
  - intros value Hin. unfold set_tier.
    replace (existsb (String.eqb value) ["FREE"; "PRO"; "PREMIUM"]) with true.
    + unfold bind, modify.
      match goal with |- context [save_config ?x] =>
        pose proof (@save_config_synced x Hn) as H;
        destruct (save_config x) end; exact H.
    + symmetry. apply existsb_exists. exists value.
      split; [exact Hin | apply String.eqb_refl].
  - intros n Hin. destruct (set_active_by_name_state self n) as [H1 _].
    destruct (H1 Hin) as (s' & -> & _ & _ & _ & H). exact (H Hn).
  - intros n Hlen. destruct (remove_project_state self n Hlen)
      as (s' & -> & _ & _ & H & _). exact (H Hn).
Qed.

Lemma write_through_witness :
  synced (state_of (upsert_project "Docs" "/srv/docs" default_store)) /\
  synced (state_of (set_tier "FREE" default_store)).
Proof.
  pose proof (@write_through default_store eq_refl) as (H1 & _ & _ & H4 & _).
  split; [apply H1 | apply H4; simpl; auto].
Defined.

(** Property X12.
    A save that fails: the project [upsert_project] was given is in memory
    all the same.  The file is as it was when it could not be opened, and
    holds what the failed write left of it when the failure came later.
    When [print] takes the report, one line is printed and
    [upsert_project] returns; when [print] raises on it, that exception
    leaves [upsert_project]. *)
Theorem failed_save_keeps_memory (w : ConfigWorld.World) (n r : string)
    (e : exn) :
  write_error (ConfigWorld.store w) = Some e ->
  let project := mkProject n (normalize_project_root r)
                   (derive_artifacts_root (normalize_project_root r)) in
  (ConfigWorld.console_error w (save_report e) = None ->
   exists w',
     ConfigWorld.upsert_project n r w = Normal tt w' /\
     find_project n (ConfigWorld.store w') = Some project /\
     config_file (ConfigWorld.store w') = after_failed_write w /\
     printed (ConfigWorld.store w')
     = (printed (ConfigWorld.store w) ++ [save_report e])%list) /\
  (forall e', ConfigWorld.console_error w (save_report e) = Some e' ->
   exists w',
     ConfigWorld.upsert_project n r w = Raised e' w' /\
     find_project n (ConfigWorld.store w') = Some project /\
     config_file (ConfigWorld.store w') = after_failed_write w /\
     printed (ConfigWorld.store w') = printed (ConfigWorld.store w)).
Proof.
  intros He project. split.
  - intros Hc.
    unfold ConfigWorld.upsert_project, ConfigWorld.set_projects, get.
    unfold bind at 1. unfold bind, modify.
    match goal with |- context [ConfigWorld.save_config ?x] =>
      destruct (@world_save_returns x)
        as (w' & -> & Hcfg & _ & _ & _ & _ & _ & Hf) end.
    { intros e0 H0. cbn in H0. assert (e0 = e) by congruence. subst e0.
      exact Hc. }
    exists w'. split; [reflexivity|].
    destruct (Hf e He) as (Hfile & Hprinted).
    split; [|split; [exact Hfile | exact Hprinted]].
    unfold find_project, get_projects. rewrite Hcfg.
    cbn [ConfigWorld.store ConfigWorld.on_store _config with_config
         cfg_projects].
    apply find_upsert_list.
  - intros e' Hc.
    unfold ConfigWorld.upsert_project, ConfigWorld.set_projects, get.
    unfold bind at 1. unfold bind, modify.
    match goal with |- context [ConfigWorld.save_config ?x] =>
      destruct (@world_save_raises x e e' He Hc)
        as (w' & -> & Hcfg & Hfile & Hprinted) end.
    exists w'. split; [reflexivity|].
    split; [|split; [exact Hfile | exact Hprinted]].
    unfold find_project, get_projects. rewrite Hcfg.
    cbn [ConfigWorld.store ConfigWorld.on_store _config with_config
         cfg_projects].
    apply find_upsert_list.
Qed.

Lemma failed_save_keeps_memory_witness :
  exists w',
    ConfigWorld.upsert_project "Docs" "/srv/docs" full_disk_world
    = Normal tt w' /\
    find_project "Docs" (ConfigWorld.store w')
    = Some (mkProject "Docs" "/srv/docs" "/srv/docs/execledger") /\
    config_file (ConfigWorld.store w') = truncated /\
    printed (ConfigWorld.store w')
    = ["Failed to save config: [Errno 28] No space left on device"].
Proof.
  destruct (@failed_save_keeps_memory full_disk_world "Docs" "/srv/docs"
              disk_full eq_refl)
    as (H & _).
  destruct (H eq_refl) as (w' & Hr & Hf & Hfile & Hp).
  exists w'. split; [exact Hr|]. split; [exact Hf|].
  split; [exact Hfile | exact Hp].
Defined.

(** Property X13.
    Loading reads the file and never writes it, where the existence test
    answers and [print] takes the line of a failed load.  A missing file
    gives the defaults silently.  A file on which the body of the [try]
    raises (it cannot be opened, is no JSON, or is JSON of another shape
    than the store's) gives the defaults and one printed line.  A file
    with a JSON object of the store's shape is loaded silently. *)
Theorem load_reads_only (module_file : string) (file : file_content)
    (werr : option exn) (console : string -> option exn)
    (leaves : option file_content) :
  (forall e, file = Unreadable e -> console (load_report e) = None) ->
  exists w,
    ConfigWorld.new_Config module_file file werr None console leaves
    = Normal tt w /\
    config_file (ConfigWorld.store w) = file /\
    defaults (ConfigWorld.store w) = make_defaults module_file /\
    (file = NoFile ->
     _config (ConfigWorld.store w) = make_defaults module_file /\
     printed (ConfigWorld.store w) = []) /\
    (forall e, file = Unreadable e ->
     _config (ConfigWorld.store w) = make_defaults module_file /\
     printed (ConfigWorld.store w) = [load_report e]) /\
    (forall d, file = Doc d -> printed (ConfigWorld.store w) = []).
Proof.
  intros Hc.
  unfold ConfigWorld.new_Config, ConfigWorld._load_config, bind, get,
    ConfigWorld.config_file_exists, ConfigWorld.json_load_file,
    try_except, except_Exception, ConfigWorld.print, modify, ret.
  cbn [ConfigWorld.exists_error ConfigWorld.store config_file
       ConfigWorld.console_error].
  destruct file as [|e|d].
  - eexists. split; [reflexivity|]. cbn.
    split; [reflexivity|]. split; [reflexivity|].
    split; [auto|]. split; intros ? H; discriminate H.
  - cbn [ConfigWorld.exists_error ConfigWorld.store config_file
         ConfigWorld.console_error].
    change ("Failed to load config: " ++ exn_str e ++ ", using defaults")
      with (load_report e).
    rewrite (Hc e eq_refl).
    eexists. split; [reflexivity|].
    cbn [ConfigWorld.store ConfigWorld.on_store config_file defaults
         _config printed with_config app].
    split; [reflexivity|]. split; [reflexivity|].
    split; [intros H; discriminate H|].
    split; [|intros ? H; discriminate H].
    intros e' H. inversion H. auto.
  - eexists. split; [reflexivity|]. cbn.
    split; [reflexivity|]. split; [reflexivity|].
    split; [intros H; discriminate H|].
    split; [intros ? H; discriminate H | auto].
Qed.

Lemma load_reads_only_witness :
  exists w,
    ConfigWorld.new_Config sample_module_file
      (Unreadable (JSONDecodeError "Extra data")) None None ascii_console
      None = Normal tt w /\
    _config (ConfigWorld.store w) = make_defaults sample_module_file /\
    printed (ConfigWorld.store w)
    = ["Failed to load config: Extra data, using defaults"].
Proof.
  destruct (@load_reads_only sample_module_file
              (Unreadable (JSONDecodeError "Extra data")) None
              ascii_console None)
    as (w & Hr & _ & _ & _ & H & _).
  - intros e He. inversion He. vm_compute. reflexivity.
  - exists w. split; [exact Hr|]. exact (H _ eq_refl).
Defined.

Lemma load_of_dump (module_file : string) (c : ConfigDict)
    (werr : option exn) :
  exists s,
    new_Config module_file (Doc (json_dump c)) werr = Normal tt s /\
    _config s
    = mkConfigDict (cfg_artifacts_root c) (cfg_dev_mode c) (cfg_tier c)
        (map renormalize (cfg_projects c)) (cfg_active_project c).
Proof.
  unfold new_Config, _load_config, json_load_file, try_except, bind, get,
    modify, ret.
  cbn [config_file]. eexists. split; [reflexivity|].
  cbn [_config with_config json_dump doc_projects doc_artifacts_root
       doc_dev_mode doc_tier doc_active_project option_map or_default].
  rewrite map_map. reflexivity.
Qed.

Lemma names_renormalize (ps : list Project) :
  map name (map renormalize ps) = map name ps.
Proof. rewrite map_map. reflexivity. Qed.

Lemma find_renormalize (n : string) (ps : list Project) :
  find (fun p => name p =? n) (map renormalize ps)
  = option_map renormalize (find (fun p => name p =? n) ps).
Proof.
  induction ps as [|p ps IH]; [reflexivity|].
  cbn [map find]. change (name (renormalize p)) with (name p).
  destruct (name p =? n); [reflexivity | exact IH].
Qed.

Lemma renormalize_stable (p : Project) : stable p -> renormalize p = p.
Proof.
  intros [H1 H2]. unfold renormalize. rewrite H1, <- H2.
  destruct p; reflexivity.
Qed.

Lemma map_renormalize_stable (ps : list Project) :
  Forall stable ps -> map renormalize ps = ps.
Proof.
  induction 1 as [|p ps Hp _ IH]; [reflexivity|].
  cbn [map]. rewrite (renormalize_stable Hp), IH. reflexivity.
Qed.

(** Property X14.
    Saving and loading again.  The scalar settings, the active name and the
    names of the projects come back as they were; every project comes back
    with its project root normalized once more and its artifacts root
    derived again from it. *)
Theorem reload_renormalizes (module_file : string) (self : Config) :
  synced self ->
  exists s',
    reload module_file self = Normal tt s' /\
    get_projects s' = map renormalize (get_projects self) /\
    project_names s' = project_names self /\
    get_active_project_name s' = get_active_project_name self /\
    get_tier s' = get_tier self /\
    get_dev_mode s' = get_dev_mode self /\
    cfg_artifacts_root (_config s') = cfg_artifacts_root (_config self).
Proof.
  intros Hs. unfold reload. rewrite Hs.
  destruct (load_of_dump module_file (_config self) (write_error self))
    as (s' & -> & Hc).
  exists s'. split; [reflexivity|].
  unfold project_names, get_projects, get_active_project_name, get_tier,
    get_dev_mode.
  rewrite Hc. cbn. rewrite names_renormalize. repeat split.
Qed.

Lemma reload_renormalizes_witness :
  exists s',
    reload sample_module_file
      (state_of (set_artifacts_root "/srv/execledger/_artifacts"
                   default_store)) = Normal tt s' /\
    map project_root (get_projects s') = ["/srv/execledger"].
Proof.
  set (s1 := state_of (set_artifacts_root "/srv/execledger/_artifacts"
                         default_store)).
  assert (Hs : synced s1) by reflexivity.
  destruct (@reload_renormalizes sample_module_file s1 Hs)
    as (s' & Hr & Hp & _).
  exists s'. split; [exact Hr|]. rewrite Hp. reflexivity.
Defined.

(** Property X15.
    The round trip is the identity when every project root is already what
    [normalize_project_root] makes of it. *)
Theorem reload_identity (module_file : string) (self : Config) :
  synced self -> Forall stable (get_projects self) ->
  exists s', reload module_file self = Normal tt s' /\
             _config s' = _config self.
Proof.
  intros Hs Hst. unfold reload. rewrite Hs.
  destruct (load_of_dump module_file (_config self) (write_error self))
    as (s' & -> & Hc).
  exists s'. split; [reflexivity|]. rewrite Hc.
  replace (map renormalize (cfg_projects (_config self)))
    with (cfg_projects (_config self)).
  - destruct (_config self); reflexivity.
  - symmetry. apply map_renormalize_stable. exact Hst.
Qed.

Lemma reload_identity_witness :
  exists s',
    reload sample_module_file
      (state_of (upsert_project "Docs" "/srv/docs" default_store))
    = Normal tt s' /\
    _config s'
    = _config (state_of (upsert_project "Docs" "/srv/docs" default_store)).
Proof.
  apply reload_identity.
  - reflexivity.
  - vm_compute. repeat constructor.
Defined.

(** Property X16.
    Add a project, make it active, start again from the file: when the
    file can be written and the normalized root does not end in a reserved
    name, the active project of the new store has that root, and its
    artifacts root is the one derived from the root the user gave. *)
Theorem upsert_activate_reload (module_file : string) (self : Config)
    (n r : string) :
  write_error self = None ->
  is_reserved (final_segment (normalize_project_root r)) = false ->
  exists s2 s3,
    (upsert_project n r ;;; set_active_project_by_name n)%py self
    = Normal true s2 /\
    reload module_file s2 = Normal tt s3 /\
    get_active_project s3
    = Some (mkProject n (normalize_project_root r)
              (derive_artifacts_root r)) /\
    get_active_artifacts_root s3 = derive_artifacts_root r.
Proof.
  intros Hw Hres.
  destruct (upsert_project_state self n r) as (s1 & Hr1 & Hp1 & _ & Hw1 & _).
  assert (Hfind : find (fun p => name p =? n) (get_projects s1)
                  = Some (mkProject n (normalize_project_root r)
                            (derive_artifacts_root (normalize_project_root r))))
    by (rewrite Hp1; apply find_upsert_list).
  assert (Hin : In n (project_names s1))
    by (unfold project_names; apply find_in_names; eauto).
  destruct (set_active_by_name_state s1 n) as [H1 _].
  destruct (H1 Hin) as (s2 & Hr2 & Ha & Hp2 & Hw2 & Hs2).
  assert (Hsync : synced s2) by (apply Hs2; congruence).
  exists s2. unfold reload. rewrite Hsync.
  destruct (load_of_dump module_file (_config s2) (write_error s2))
    as (s3 & -> & Hc).
  exists s3. unfold bind. rewrite Hr1, Hr2.
  split; [reflexivity|]. split; [reflexivity|].
  unfold get_active_artifacts_root, get_active_project,
    get_active_project_name, get_projects in *.
  rewrite Hc. cbn [cfg_projects cfg_active_project].
  rewrite Ha, find_renormalize, Hp2, Hfind.
  cbn [option_map]. unfold renormalize. cbn [name project_root].
  rewrite (normalize_stable r Hres), (derive_normalize_stable r Hres).
  split; reflexivity.
Qed.

Lemma upsert_activate_reload_witness :
  exists s2 s3,
    (upsert_project "X" "/repo" ;;; set_active_project_by_name "X")%py
      default_store = Normal true s2 /\
    reload sample_module_file s2 = Normal tt s3 /\
    get_active_artifacts_root s3 = "/repo/execledger".
Proof.
  destruct (@upsert_activate_reload sample_module_file default_store
              "X" "/repo" eq_refl eq_refl)
    as (s2 & s3 & H1 & H2 & _ & H4).
  exists s2, s3. repeat split; assumption.
Defined.

(** ** More on the engine gateway *)

(** Closes the facts on the fields of an explicit result. *)
Ltac fields :=
  cbn; repeat split; try discriminate; try congruence;
  try (eexists; reflexivity);
  try (let H := fresh in intros (? & H); discriminate H).

(** Closes the facts on the fields of an explicit result; [Hs] tells what
    the child of the command does. *)
Ltac shape Hs :=
  cbn;
  repeat match goal with
         | |- _ /\ _ => split
         | |- _ <-> _ => split
         | |- forall _, _ => intro
         | H : _ /\ _ |- _ => destruct H
         | H : prints_null _ _ _ |- _ =>
             destruct H as (? & ? & ? & ? & ? & ?)
         end;
  try discriminate; try reflexivity; try congruence;
  try (match goal with
       | H : _ = Runs _ _ _ _ |- _ =>
           rewrite Hs in H; inversion H; subst; cbn in *; congruence
       end).

Section GatewayMore.

Variable Contract : Type.
Variable json_loads : string -> option Contract + loads_error.
Variable spawn : list string -> child.

(** The result of a run does not depend on the client it is run from: the
    three cases of [_execute_engine], with the client left behind. *)
Lemma execute_cases (c : list string) (self : EngineClient Contract) :
  exists r,
    _execute_engine json_loads spawn c self
    = Normal r (mkEngineClient (engine_path self) (Some r)) /\
    (forall other : EngineClient Contract,
       _execute_engine json_loads spawn c other
       = Normal r (mkEngineClient (engine_path other) (Some r))) /\
    cmd r = c /\
    (forall doc, contract r = Some doc -> ok r = true) /\
    (ok r = true -> code r = 0%Z) /\
    (ok r = false -> contract r = None) /\
    (ok r = true /\ contract r = None <-> prints_null json_loads spawn c).
Proof.
  destruct (spawn c) as [msg | d out err rc] eqn:Hs.
  - eexists. split; [apply (@execute_launch_failed _ _ _ c self msg Hs)|].
    split; [intros other; apply (@execute_launch_failed _ _ _ c other msg Hs)|].
    shape Hs.
  - assert (Hto : exceeds d (30 # 1) ->
              exists r,
                _execute_engine json_loads spawn c self
                = Normal r (mkEngineClient (engine_path self) (Some r)) /\
                (forall other : EngineClient Contract,
                   _execute_engine json_loads spawn c other
                   = Normal r (mkEngineClient (engine_path other) (Some r))) /\
                cmd r = c /\
                (forall doc, contract r = Some doc -> ok r = true) /\
                (ok r = true -> code r = 0%Z) /\
                (ok r = false -> contract r = None) /\
                (ok r = true /\ contract r = None
                 <-> prints_null json_loads spawn c)).
    { intros Hx. eexists.
      split; [apply (@execute_timed_out _ _ _ c self d out err rc Hs Hx)|].
      split; [intros other;
              apply (@execute_timed_out _ _ _ c other d out err rc Hs Hx)|].
      shape Hs. }
    destruct d as [q|]; [|apply Hto; exact I].
    destruct (Qle_bool q (30 # 1)) eqn:Hq; [|apply Hto; exact Hq].
    eexists.
    split; [apply (@execute_completed _ _ _ c self q out err rc Hs Hq)|].
    split; [intros other;
            apply (@execute_completed _ _ _ c other q out err rc Hs Hq)|].
    destruct (Z.eqb rc 0) eqn:E.
    + apply Z.eqb_eq in E. subst rc.
      destruct (json_loads out) as [[doc|] | [m | m | m]] eqn:Hj;
        shape Hs.
      exists q, out, err. auto.
    + apply Z.eqb_neq in E. shape Hs.
Qed.

(** Property X17.
    Every result with a contract is [ok], every [ok] result has exit code 0,
    and a result that is not [ok] has no contract.  The converse fails in
    one case only: a result is [ok] and has no contract exactly when the
    child exits with code 0 in time and prints the JSON [null], which
    [json.loads] turns into [None].  The result records the command line
    that was run; the client keeps its engine path and has that result as
    its last one. *)
Theorem result_shape (c : list string) (self : EngineClient Contract) :
  exists r s',
    _execute_engine json_loads spawn c self = Normal r s' /\
    (forall doc, contract r = Some doc -> ok r = true) /\
    (ok r = true -> code r = 0%Z) /\
    (ok r = false -> contract r = None) /\
    (ok r = true /\ contract r = None <-> prints_null json_loads spawn c) /\
    cmd r = c /\
    engine_path s' = engine_path self /\
    get_last_diagnostic s' = Some r.
Proof.
  destruct (execute_cases c self) as (r & Hr & _ & Hc & H1 & H2 & H3 & H4).
  eexists r, _. split; [exact Hr|].
  split; [exact H1|]. split; [exact H2|]. split; [exact H3|].
  split; [exact H4|]. split; [exact Hc|]. split; reflexivity.
Qed.

(** Property X18.
    A child that exits in time.  With an exit code other than 0 the output
    is not parsed: output, diagnostic stream and exit code are the child's,
    whatever the output is.  With exit code 0 and an output [json.loads]
    returns a value for, the result carries that value and, unchanged, the
    output and the diagnostic stream.  With a [JSONDecodeError] the output
    and the exit code are still the child's.  When [json.loads] raises
    anything else, what the child wrote and its exit code are dropped: the
    result has the output [""], the exit code [-1] and the diagnostic of a
    failed execution. *)
Theorem completed_passthrough (c : list string) (self : EngineClient Contract)
    (d : Q) (out err : string) (rc : Z) :
  spawn c = Runs (Some d) out err rc -> Qle_bool d (30 # 1) = true ->
  exists r s',
    _execute_engine json_loads spawn c self = Normal r s' /\
    (rc <> 0%Z -> r = mkEngineResult false None out err rc c) /\
    (forall value, rc = 0%Z -> json_loads out = inl value ->
       r = mkEngineResult true value out err 0 c) /\
    (forall msg, rc = 0%Z -> json_loads out = inr (NotJSON msg) ->
       stdout r = out /\ code r = 0%Z) /\
    (forall e, rc = 0%Z -> json_loads out = inr e ->
       (forall msg, e <> NotJSON msg) ->
       r = mkEngineResult false None ""
             ("Engine execution failed: " ++ exn_str (loads_exn e)) (-1) c).
Proof.
  intros Hs Hd. eexists _, _.
  split; [apply (@execute_completed _ _ _ c self d out err rc Hs Hd)|].
  destruct (Z.eqb rc 0) eqn:E.
  - apply Z.eqb_eq in E. subst rc.
    destruct (json_loads out) as [value | [m | m | m]]; cbn;
      repeat match goal with
             | |- _ /\ _ => split
             | |- forall _, _ => intro
             end;
      try congruence;
      match goal with
      | H : inr _ = inr ?e, Hne : forall msg, ?e <> NotJSON msg |- _ =>
          inversion H; subst e; try reflexivity;
          exfalso; exact (Hne _ eq_refl)
      end.
  - apply Z.eqb_neq in E. cbn. repeat split; congruence.
Qed.

(** Property X19.
    Two runs in a row: the second result is the one the second command
    gives on its own, and it alone is kept as the last result. *)
Theorem last_result_overwritten (c1 c2 : list string)
    (self : EngineClient Contract) :
  exists r1 r2 s',
    (r1 <- _execute_engine json_loads spawn c1 ;;
     r2 <- _execute_engine json_loads spawn c2 ;;
     ret (r1, r2))%py self = Normal (r1, r2) s' /\
    value_of (_execute_engine json_loads spawn c2 self) = Some r2 /\
    get_last_diagnostic s' = Some r2 /\
    engine_path s' = engine_path self.
Proof.
  destruct (execute_cases c1 self) as (r1 & Hr1 & _).
  destruct (execute_cases c2 self) as (r2 & Hr2 & Hany & _).
  exists r1, r2. eexists. unfold bind. rewrite Hr1, Hany, Hr2.
  repeat split.
Qed.

(** Property X20.
    The command lines.  Every call starts with [node], the engine script,
    [--root] and the artifacts root.  [export_contract_to_file] asks for a
    given session only when both ids are given and not empty; when either is
    missing it asks for the latest session and drops the other. *)
Theorem command_lines (self : EngineClient Contract)
    (artifacts_root exec_id session_id output_file : string)
    (exec_opt session_opt : option string) :
  let script := ConfigStore.str_of_path (engine_path self) in
  (exists r s',
     get_latest_session json_loads spawn artifacts_root self = Normal r s' /\
     cmd r = ["node"; script; "--root"; artifacts_root; "--latest"]) /\
  (exists r s',
     get_specific_session json_loads spawn artifacts_root exec_id session_id
       self = Normal r s' /\
     cmd r = ["node"; script; "--root"; artifacts_root;
              "--exec"; exec_id; "--session"; session_id]) /\
  (exists r s',
     export_contract_to_file json_loads spawn artifacts_root output_file
       exec_opt session_opt self = Normal r s' /\
     cmd r = (["node"; script; "--root"; artifacts_root; "--out"; output_file]
              ++ match exec_opt, session_opt with
                 | Some e, Some s =>
                     if (e =? "") || (s =? "") then ["--latest"]
                     else ["--exec"; e; "--session"; s]
                 | _, _ => ["--latest"]
                 end)%list).
Proof.
  cbv zeta. repeat split.
  - unfold get_latest_session, bind, get.
    match goal with |- context [_execute_engine _ _ ?c self] =>
      destruct (execute_cases c self) as (r & -> & _ & Hc & _) end.
    eexists _, _. split; [reflexivity | exact Hc].
  - unfold get_specific_session, bind, get.
    match goal with |- context [_execute_engine _ _ ?c self] =>
      destruct (execute_cases c self) as (r & -> & _ & Hc & _) end.
    eexists _, _. split; [reflexivity | exact Hc].
  - unfold export_contract_to_file, bind, get.
    match goal with |- context [_execute_engine _ _ ?c self] =>
      destruct (execute_cases c self) as (r & -> & _ & Hc & _) end.
    eexists _, _. split; [reflexivity|]. rewrite Hc.
    destruct exec_opt as [e|], session_opt as [s|]; cbn [truthy arg andb];
      try reflexivity.
    + destruct (e =? ""), (s =? ""); reflexivity.
    + destruct (e =? ""); reflexivity.
Qed.

End GatewayMore.

Lemma result_shape_witness :
  exists r s',
    _execute_engine sample_loads null_spawn ["node"; "index.js"]
      (mkEngineClient (Path "index.js") None) = Normal r s' /\
    ok r = true /\ contract r = None /\ cmd r = ["node"; "index.js"].
Proof.
  destruct (@result_shape unit sample_loads null_spawn ["node"; "index.js"]
              (mkEngineClient (Path "index.js") None))
    as (r & s' & Hr & _ & _ & _ & Hn & Hc & _).
  exists r, s'. split; [exact Hr|].
  assert (H : ok r = true /\ contract r = None).
  { apply Hn. exists (1 # 1)%Q, "null", "". repeat split. }
  destruct H as (H1 & H2). auto.
Defined.

Lemma completed_passthrough_witness :
  exists r s',
    _execute_engine sample_loads deep_spawn ["node"; "index.js"]
      (mkEngineClient (Path "index.js") None) = Normal r s' /\
    r = mkEngineResult false None ""
          ("Engine execution failed: maximum recursion depth exceeded "
           ++ "while decoding a JSON array from a unicode string")
          (-1) ["node"; "index.js"].
Proof.
  destruct (@completed_passthrough unit sample_loads deep_spawn
              ["node"; "index.js"]
              (mkEngineClient (Path "index.js") None)
              (1 # 1)%Q nested_arrays "deprecation warning" 0%Z
              eq_refl eq_refl)
    as (r & s' & Hr & _ & _ & _ & H).
  exists r, s'. split; [exact Hr|].
  apply (H (TooDeep ("maximum recursion depth exceeded while decoding "
                     ++ "a JSON array from a unicode string")) eq_refl).
  - vm_compute. reflexivity.
  - intros msg. discriminate.
Defined.

(** ** The exec id of a contract *)

Import ExportsView.

Lemma first_exec_root_free (p : PurePath) :
  String.prefix "exec_" (text (PosixPath.root p)) = false ->
  first_exec (parts p) = first_exec (map text (PosixPath.tail p)).
Proof.
  intros H. unfold parts.
  destruct (is_empty (PosixPath.root p)); [reflexivity|].
  cbn [first_exec]. rewrite H. reflexivity.
Qed.

Lemma splitroot_root (s : str) :
  fst (splitroot s) = [] \/ fst (splitroot s) = [sep]
  \/ fst (splitroot s) = [sep; sep].
Proof.
  unfold splitroot. destruct s as [|c [|c1 p2]]; auto.
  - destruct (negb (Ascii.eqb c sep)); auto.
  - destruct (negb (Ascii.eqb c sep)); auto.
    destruct (negb (Ascii.eqb c1 sep)); auto.
    destruct (startswith [sep] p2); auto.
Qed.

Lemma parse_root (s : str) :
  String.prefix "exec_" (text (PosixPath.root (parse s))) = false.
Proof.
  unfold parse. pose proof (splitroot_root s) as H.
  destruct (splitroot s) as [r rel]. cbn [fst PosixPath.root] in *.
  destruct H as [-> | [-> | ->]]; reflexivity.
Qed.

Lemma first_exec_segments (session_root : string) :
  first_exec (parts (Path session_root)) = first_exec (segments session_root).
Proof. apply first_exec_root_free, parse_root. Qed.

Lemma first_exec_found (before after : list string) (e : string) :
  Forall (fun s => String.prefix "exec_" s = false) before ->
  String.prefix "exec_" e = true ->
  first_exec (before ++ e :: after) = e.
Proof.
  intros Hb He. induction Hb as [|s before Hs _ IH]; cbn [app first_exec].
  - rewrite He. reflexivity.
  - rewrite Hs. exact IH.
Qed.

Lemma first_exec_none (l : list string) :
  Forall (fun s => String.prefix "exec_" s = false) l -> first_exec l = "".
Proof.
  induction 1 as [|s l Hs _ IH]; cbn [first_exec]; [reflexivity|].
  rewrite Hs. exact IH.
Qed.

Lemma first_exec_result (l : list string) :
  first_exec l = ""
  \/ (String.prefix "exec_" (first_exec l) = true /\ In (first_exec l) l).
Proof.
  induction l as [|s l IH]; cbn [first_exec]; [left; reflexivity|].
  destruct (String.prefix "exec_" s) eqn:E.
  - right. split; [exact E | left; reflexivity].
  - destruct IH as [IH | [IH1 IH2]]; [left; exact IH|].
    right. split; [exact IH1 | right; exact IH2].
Qed.

(** Property X21.  [_extract_exec_id] gives the first segment of the contract's
    ["sessionRoot"] that starts with ["exec_"], and [""] when no segment
    does; the result is always [""] or such a segment.  Without a contract,
    with an empty one, or with a ["sessionRoot"] that is not a string, it
    gives [""]. *)
Theorem extract_exec_id_first (d : contract_dict) (session_root : string) :
  d <> [] -> dict_get d "sessionRoot" (VStr "") = VStr session_root ->
  (forall before e after,
     segments session_root = (before ++ e :: after)%list ->
     Forall (fun s => String.prefix "exec_" s = false) before ->
     String.prefix "exec_" e = true ->
     _extract_exec_id (Some d) = e) /\
  (Forall (fun s => String.prefix "exec_" s = false) (segments session_root)
   -> _extract_exec_id (Some d) = "") /\
  (_extract_exec_id (Some d) = ""
   \/ (String.prefix "exec_" (_extract_exec_id (Some d)) = true
       /\ In (_extract_exec_id (Some d)) (segments session_root))) /\
  _extract_exec_id None = "" /\
  _extract_exec_id (Some []) = "" /\
  (forall d', dict_get d' "sessionRoot" (VStr "") = VOther ->
              _extract_exec_id (Some d') = "").
Proof.
  intros Hd Hg.
  assert (He : _extract_exec_id (Some d) = first_exec (segments session_root)).
  { unfold _extract_exec_id. destruct d as [|kv d]; [congruence|].
    rewrite Hg. apply first_exec_segments. }
  rewrite He. repeat split.
  - intros before e after Hs Hb Hp. rewrite Hs.
    apply first_exec_found; assumption.
  - apply first_exec_none.
  - apply first_exec_result.
  - intros d' Hg'. unfold _extract_exec_id.
    destruct d' as [|kv d']; [reflexivity|]. rewrite Hg'. reflexivity.
Qed.

Lemma extract_exec_id_first_witness :
  _extract_exec_id
    (Some [("sessionId", VStr "s7");
           ("sessionRoot",
            VStr "/repo/execledger/exec_42/milestone/s7/exec_old")])
  = "exec_42".
Proof.
  refine (proj1 (@extract_exec_id_first
                   [("sessionId", VStr "s7");
                    ("sessionRoot",
                     VStr "/repo/execledger/exec_42/milestone/s7/exec_old")]
                   "/repo/execledger/exec_42/milestone/s7/exec_old"
                   _ eq_refl)
                ["repo"; "execledger"] "exec_42"
                ["milestone"; "s7"; "exec_old"] eq_refl _ eq_refl).
  - discriminate.
  - repeat constructor.
Defined.
